(** * Order management: a shallow embedding of the price-priority order book

    The Python sources embedded here are
    - [src/domain/models.py]            (Side, Order, OrderFill, Trade)
    - [src/domain/order_book.py]        (OrderBook)
    - [src/services/price_calculator.py] (PriceCalculator)
    - [src/services/trade_executor.py]  (TradeExecutor)
    - [src/services/order_manager.py]   (OrderManagement)

    Python integers are unbounded, hence [Z].  Dictionaries are [gmap]s.
    [Order] instances are mutable objects shared between a book's sorted
    collection, the book's index and the facade's index, so they live in
    an explicit object store and every container holds references. *)

From Stdlib Require Import ZArith Lia.
From stdpp Require Import base option list sorting gmap strings fin_maps.

Set Default Proof Using "Type".

(** ** Data model ([models.py]) *)

Inductive Side := BUY | SELL.

#[global] Instance Side_eq_dec : EqDecision Side.
Proof. solve_decision. Defined.

(** [Side.value]: the string carried by each enumeration member. *)
Definition Side_value (s : Side) : string :=
  match s with BUY => "BUY" | SELL => "SELL" end.

(** [Side(text)]: lookup of a member by value; any other text raises. *)
Definition Side_of_value (v : string) : option Side :=
  if decide (v = "BUY") then Some BUY
  else if decide (v = "SELL") then Some SELL
  else None.

Record Order := mkOrder {
  order_id : Z;
  symbol : string;
  side : Side;
  amount : Z;
  price : Z
}.

(** The dataclass-generated [__eq__] compares the five fields. *)
#[global] Instance Order_eq_dec : EqDecision Order.
Proof. solve_decision. Defined.

(** [OrderFill] and [Trade] reuse the field names of [Order] in Python;
    here they carry a prefix so that all records live side by side. *)
Record OrderFill := mkOrderFill {
  fill_order_id : Z;
  filled_amount : Z;
  fill_price : Z
}.

Record Trade := mkTrade {
  trade_id : string;
  trade_symbol : string;
  trade_side : Side;
  trade_amount : Z;
  total_price : Z;
  executed_at : Z;
  order_fills : list OrderFill
}.

(** *** Serialisation of [Order] *)

(** Values a dictionary holds: the two kinds [to_dict] stores. *)
Inductive pyval :=
| PyInt (n : Z)
| PyStr (s : string).

Inductive exception :=
| KeyError (key : string)
| ValueError (what : pyval).

(** What [cls(...)] builds.  The dataclass constructor stores the values
    it is given and checks no annotation, so the fields [order_id],
    [symbol], [amount] and [price] of an instance read from a dictionary
    hold whatever the dictionary held; [side] holds the member that
    [Side(...)] returned. *)
Record Order_instance := mkOrder_instance {
  instance_order_id : pyval;
  instance_symbol : pyval;
  instance_side : Side;
  instance_amount : pyval;
  instance_price : pyval
}.

(** An [Order] is the instance whose fields hold values of the annotated
    types, and is read as that instance wherever one is expected. *)
Definition Order_as_instance (o : Order) : Order_instance :=
  mkOrder_instance (PyInt (order_id o)) (PyStr (symbol o)) (side o)
    (PyInt (amount o)) (PyInt (price o)).

Coercion Order_as_instance : Order >-> Order_instance.

Record OrderFill_instance := mkOrderFill_instance {
  instance_fill_order_id : pyval;
  instance_filled_amount : pyval;
  instance_fill_price : pyval
}.

Definition OrderFill_as_instance (f : OrderFill) : OrderFill_instance :=
  mkOrderFill_instance (PyInt (fill_order_id f)) (PyInt (filled_amount f))
    (PyInt (fill_price f)).

Coercion OrderFill_as_instance : OrderFill >-> OrderFill_instance.

Inductive result (A : Type) :=
| Return (a : A)
| Raise (e : exception).
Arguments Return {A} & a.
Arguments Raise {A} e.

#[global] Instance result_bind : MBind result := λ A B f m,
  match m with
  | Return a => f a
  | Raise e => Raise e
  end.

Definition to_dict (o : Order) : gmap string pyval :=
  <["order_id" := PyInt (order_id o)]>
  (<["symbol" := PyStr (symbol o)]>
  (<["side" := PyStr (Side_value (side o))]>
  (<["amount" := PyInt (amount o)]>
  (<["price" := PyInt (price o)]> ∅)))).

(** [data[key]]: subscription raises [KeyError] on a missing key. *)
Definition getitem (data : gmap string pyval) (key : string) : result pyval :=
  match data !! key with
  | Some v => Return v
  | None => Raise (KeyError key)
  end.

(** [Side(value)]: the member with that value; any other value, text or
    not, raises [ValueError]. *)
Definition as_side (v : pyval) : result Side :=
  match v with
  | PyStr s =>
      match Side_of_value s with
      | Some sd => Return sd
      | None => Raise (ValueError v)
      end
  | PyInt _ => Raise (ValueError v)
  end.

(** The keyword arguments of [cls(...)] are evaluated in the order in
    which they are written, so the first failing one decides the
    exception. *)
Definition from_dict (data : gmap string pyval) : result Order_instance :=
  oid ← getitem data "order_id";
  sym ← getitem data "symbol";
  sd ← getitem data "side" ≫= as_side;
  amt ← getitem data "amount";
  prc ← getitem data "price";
  Return (mkOrder_instance oid sym sd amt prc).

(** ** The object store

    A reference is the position of the object in the store; allocation
    appends, so references are handed out in creation order and never
    reused.  [deref] is total: Python references never dangle, the
    default is only there for references that no constructor produced. *)

Definition alloc (h : list Order) (o : Order) : nat * list Order :=
  (length h, h ++ [o]).

Definition deref (h : list Order) (r : nat) : Order :=
  default (mkOrder 0 "" BUY 0 0) (h !! r).

(** [obj.amount = v] on the object behind [r]. *)
Definition set_amount (h : list Order) (r : nat) (v : Z) : list Order :=
  let o := deref h r in
  <[r := mkOrder (order_id o) (symbol o) (side o) v (price o)]> h.

(** ** [sortedcontainers.SortedList(key=...)]

    The library is an external dependency; the two methods the book calls
    are modelled on a plain list kept in key order.
    - [add] places the value after every element whose key is not larger
      (the library bisects to the right of equal keys);
    - [discard] removes the first element that compares equal to the
      value ([==], i.e. the dataclass equality), and does nothing when
      there is none.  Equal orders have equal keys, so on a list in key
      order this is the element the library's scan of the equal-key run
      finds. *)
Module SortedList.
Section with_key.
Variable key : Order → Z.

Fixpoint add (h : list Order) (r : nat) (l : list nat) : list nat :=
  match l with
  | [] => [r]
  | x :: l' =>
      if (key (deref h x) <=? key (deref h r))%Z
      then x :: add h r l'
      else r :: x :: l'
  end.

Fixpoint discard (h : list Order) (r : nat) (l : list nat) : list nat :=
  match l with
  | [] => []
  | x :: l' =>
      if decide (deref h x = deref h r) then l' else x :: discard h r l'
  end.
End with_key.
End SortedList.

(** ** [OrderBook] ([order_book.py]) *)

Record OrderBook := mkOrderBook {
  book_symbol : string;
  _buy_orders : list nat;
  _sell_orders : list nat;
  _order_index : gmap Z nat
}.

Definition buy_key (o : Order) : Z := price o.
Definition sell_key (o : Order) : Z := (- price o)%Z.

Module OrderBook.

(** [OrderBook(symbol)] *)
Definition init (sym : string) : OrderBook :=
  mkOrderBook sym [] [] ∅.

Definition add_order (h : list Order) (b : OrderBook) (order : nat) : OrderBook :=
  let o := deref h order in
  match side o with
  | BUY =>
      mkOrderBook (book_symbol b)
        (SortedList.add buy_key h order (_buy_orders b))
        (_sell_orders b)
        (<[order_id o := order]> (_order_index b))
  | SELL =>
      mkOrderBook (book_symbol b)
        (_buy_orders b)
        (SortedList.add sell_key h order (_sell_orders b))
        (<[order_id o := order]> (_order_index b))
  end.

Definition remove_order (h : list Order) (b : OrderBook) (oid : Z)
  : option nat * OrderBook :=
  match _order_index b !! oid with
  | None => (None, b)
  | Some order =>
      let idx := delete oid (_order_index b) in
      match side (deref h order) with
      | BUY =>
          (Some order,
           mkOrderBook (book_symbol b)
             (SortedList.discard h order (_buy_orders b))
             (_sell_orders b) idx)
      | SELL =>
          (Some order,
           mkOrderBook (book_symbol b)
             (_buy_orders b)
             (SortedList.discard h order (_sell_orders b)) idx)
      end
  end.

Definition get_order (b : OrderBook) (oid : Z) : option nat :=
  _order_index b !! oid.

(** A fresh list of the objects of one side. *)
Definition get_orders (b : OrderBook) (s : Side) : list nat :=
  match s with
  | BUY => _buy_orders b
  | SELL => _sell_orders b
  end.

(** Mutates the indexed object; the book's containers are untouched. *)
Definition update_order_amount (h : list Order) (b : OrderBook)
    (oid : Z) (new_amount : Z) : bool * list Order :=
  match _order_index b !! oid with
  | None => (false, h)
  | Some order => (true, set_amount h order new_amount)
  end.

End OrderBook.

(** ** [PriceCalculator] ([price_calculator.py]) *)

Module PriceCalculator.

(** The [for] loop with its two variables; [break] returns. *)
Fixpoint calculate_loop (orders : list Order) (total remaining : Z) : Z :=
  match orders with
  | [] => total
  | order :: rest =>
      if (remaining <=? 0)%Z then total
      else
        let consumed := Z.min (amount order) remaining in
        calculate_loop rest (total + price order * consumed)%Z
          (remaining - consumed)%Z
  end.

Definition calculate (orders : list Order) (amt : Z) : Z :=
  calculate_loop orders 0%Z amt.

End PriceCalculator.

(** ** [TradeExecutor] ([trade_executor.py]) *)

(** The variables the execution loop reads and writes, together with the
    store and the book it mutates. *)
Record exec_state := mkExec {
  ex_heap : list Order;
  ex_book : OrderBook;
  ex_fills : list OrderFill;
  ex_remaining : Z;
  ex_actual_filled : Z;
  ex_actual_price : Z
}.

Module TradeExecutor.

Definition step (order : nat) (s : exec_state) : exec_state :=
  let h := ex_heap s in
  let o := deref h order in
  let consumed := Z.min (amount o) (ex_remaining s) in
  let fill := mkOrderFill (order_id o) consumed (price o) in
  let new_amount := (amount o - consumed)%Z in
  let '(h', b') :=
    if (new_amount =? 0)%Z
    then (h, (OrderBook.remove_order h (ex_book s) (order_id o)).2)
    else ((OrderBook.update_order_amount h (ex_book s) (order_id o) new_amount).2,
          ex_book s) in
  mkExec h' b' (ex_fills s ++ [fill])
    (ex_remaining s - consumed)%Z
    (ex_actual_filled s + consumed)%Z
    (ex_actual_price s + price o * consumed)%Z.

Fixpoint loop (orders : list nat) (s : exec_state) : exec_state :=
  match orders with
  | [] => s
  | order :: rest =>
      if (ex_remaining s <=? 0)%Z then s
      else loop rest (step order s)
  end.

(** [uuid] and [now] stand for the results of [uuid.uuid4()] and
    [datetime.now(UTC)].  The price computed up front is not used by
    the rest of the method. *)
Definition execute (uuid : string) (now : Z)
    (h : list Order) (b : OrderBook) (s : Side) (amt : Z)
  : Trade * list Order * OrderBook :=
  let orders := OrderBook.get_orders b s in
  let _total_price := PriceCalculator.calculate (deref h <$> orders) amt in
  let fin := loop orders (mkExec h b [] amt 0%Z 0%Z) in
  (mkTrade uuid (book_symbol (ex_book fin)) s
     (ex_actual_filled fin) (ex_actual_price fin) now (ex_fills fin),
   ex_heap fin, ex_book fin).

End TradeExecutor.

Arguments TradeExecutor.execute : simpl never.

(** ** [OrderManagement] ([order_manager.py])

    The facade's two dictionaries together with the store of [Order]
    objects they refer to.  [_price_calculator] and [_trade_executor] hold
    no state.  An [OrderBook] is reached only through [_order_books], so a
    mutated book is written back under its symbol. *)

Record OrderManagement := mkOM {
  heap : list Order;
  _order_books : gmap string OrderBook;
  _orders : gmap Z nat
}.

Module OrderManagement.

(** [OrderManagement()] *)
Definition init : OrderManagement := mkOM [] ∅ ∅.

Definition _get_or_create_order_book (st : OrderManagement) (sym : string)
  : OrderBook * OrderManagement :=
  match _order_books st !! sym with
  | Some b => (b, st)
  | None =>
      let b := OrderBook.init sym in
      (b, mkOM (heap st) (<[sym := b]> (_order_books st)) (_orders st))
  end.

(** A call that may raise returns the outcome together with the state
    it leaves behind.  The [ValueError] keeps the offending id instead
    of the formatted message. *)
Definition add_order (st : OrderManagement)
    (oid : Z) (sym : string) (s : Side) (amt prc : Z)
  : result () * OrderManagement :=
  match _orders st !! oid with
  | Some _ => (Raise (ValueError (PyInt oid)), st)
  | None =>
      let '(order, h) := alloc (heap st) (mkOrder oid sym s amt prc) in
      let st1 := mkOM h (_order_books st) (_orders st) in
      let '(order_book, st2) := _get_or_create_order_book st1 sym in
      let order_book := OrderBook.add_order h order_book order in
      (Return (),
       mkOM h (<[sym := order_book]> (_order_books st2))
         (<[oid := order]> (_orders st2)))
  end.

Definition remove_order (st : OrderManagement) (oid : Z) : OrderManagement :=
  match _orders st !! oid with
  | None => st
  | Some order =>
      let sym := symbol (deref (heap st) order) in
      let books :=
        match _order_books st !! sym with
        | Some order_book =>
            <[sym := (OrderBook.remove_order (heap st) order_book oid).2]>
              (_order_books st)
        | None => _order_books st
        end in
      mkOM (heap st) books (delete oid (_orders st))
  end.

Definition calculate_price (st : OrderManagement)
    (sym : string) (s : Side) (amt : Z) : Z * OrderManagement :=
  let '(order_book, st1) := _get_or_create_order_book st sym in
  let orders := OrderBook.get_orders order_book s in
  (PriceCalculator.calculate (deref (heap st1) <$> orders) amt, st1).

(** One iteration of the loop over [trade.order_fills]. *)
Definition track_fill (h : list Order) (orders : gmap Z nat) (fill : OrderFill)
  : gmap Z nat :=
  match orders !! fill_order_id fill with
  | Some order =>
      let new_amount := (amount (deref h order) - filled_amount fill)%Z in
      if (new_amount =? 0)%Z then delete (fill_order_id fill) orders
      else orders
  | None => orders
  end.

Definition _update_local_order_tracking (st : OrderManagement) (trade : Trade)
  : OrderManagement :=
  mkOM (heap st) (_order_books st)
    (foldl (track_fill (heap st)) (_orders st) (order_fills trade)).

Definition place_trade (uuid : string) (now : Z) (st : OrderManagement)
    (sym : string) (s : Side) (amt : Z) : Trade * OrderManagement :=
  let '(order_book, st1) := _get_or_create_order_book st sym in
  let '(trade, h, order_book) :=
    TradeExecutor.execute uuid now (heap st1) order_book s amt in
  let st2 := mkOM h (<[sym := order_book]> (_order_books st1)) (_orders st1) in
  (trade, _update_local_order_tracking st2 trade).

End OrderManagement.

(** ** Sequences of [OrderBook] operations

    A client of a book creates an [Order] and hands it to [add_order];
    the other two operations take an id. *)
Inductive book_op :=
| OpAdd (o : Order)
| OpRemove (oid : Z)
| OpUpdate (oid : Z) (new_amount : Z).

Definition apply_op (hb : list Order * OrderBook) (op : book_op)
  : list Order * OrderBook :=
  let '(h, b) := hb in
  match op with
  | OpAdd o =>
      let '(r, h') := alloc h o in (h', OrderBook.add_order h' b r)
  | OpRemove oid => (h, (OrderBook.remove_order h b oid).2)
  | OpUpdate oid v => ((OrderBook.update_order_amount h b oid v).2, b)
  end.

Definition run_ops (h : list Order) (b : OrderBook) (ops : list book_op)
  : list Order * OrderBook :=
  foldl apply_op (h, b) ops.

(** How many orders the first [k] operations create. *)
Fixpoint count_adds (ops : list book_op) : nat :=
  match ops with
  | [] => 0
  | OpAdd _ :: ops' => S (count_adds ops')
  | _ :: ops' => count_adds ops'
  end.

Definition adds_before (ops : list book_op) (k : nat) : nat :=
  count_adds (take k ops).

(** The orders a caller of [get_orders] sees. *)
Definition view (h : list Order) (refs : list nat) : list Order :=
  deref h <$> refs.

(** ** The facade's public operations as commands *)

Inductive command :=
| AddOrder (oid : Z) (sym : string) (s : Side) (amt prc : Z)
| RemoveOrder (oid : Z)
| CalculatePrice (sym : string) (s : Side) (amt : Z)
| PlaceTrade (uuid : string) (now : Z) (sym : string) (s : Side) (amt : Z).

Definition exec (st : OrderManagement) (c : command) : OrderManagement :=
  match c with
  | AddOrder oid sym s amt prc => (OrderManagement.add_order st oid sym s amt prc).2
  | RemoveOrder oid => OrderManagement.remove_order st oid
  | CalculatePrice sym s amt => (OrderManagement.calculate_price st sym s amt).2
  | PlaceTrade uuid now sym s amt =>
      (OrderManagement.place_trade uuid now st sym s amt).2
  end.

Definition reachable (st : OrderManagement) : Prop :=
  ∃ cs, st = foldl exec OrderManagement.init cs.

(** Some book has the id in its index. *)
Definition in_some_book (st : OrderManagement) (oid : Z) : Prop :=
  ∃ sym b, _order_books st !! sym = Some b ∧ is_Some (_order_index b !! oid).

(** The facade's index and the books' indices agree: the same ids, and
    the same remaining amount under each id. *)
Definition indices_agree (st : OrderManagement) : Prop :=
  ∀ oid,
    (is_Some (_orders st !! oid) ↔ in_some_book st oid)
    ∧ (∀ r sym b r',
         _orders st !! oid = Some r →
         _order_books st !! sym = Some b →
         _order_index b !! oid = Some r' →
         amount (deref (heap st) r) = amount (deref (heap st) r')).

(** ** Price-time priority

    [earlier key h r1 r2]: [r1] comes before [r2] in priority, by key and,
    at equal keys, by creation: the store hands out references in the
    order in which the orders were created, and [apply_op] creates the
    order of an [OpAdd] at the moment it is added (lemma
    [run_ops_creation_order] below). *)
Definition earlier (key : Order → Z) (h : list Order) (r1 r2 : nat) : Prop :=
  (key (deref h r1) < key (deref h r2))%Z
  ∨ (key (deref h r1) = key (deref h r2) ∧ (r1 < r2)%nat).

Definition priority_ordered (h : list Order) (b : OrderBook) : Prop :=
  StronglySorted (earlier buy_key h) (_buy_orders b)
  ∧ StronglySorted (earlier sell_key h) (_sell_orders b)
  ∧ Forall (λ r, (r < length h)%nat ∧ side (deref h r) = BUY) (_buy_orders b)
  ∧ Forall (λ r, (r < length h)%nat ∧ side (deref h r) = SELL) (_sell_orders b).

(** ** Resting orders and well-formed books *)

(** The objects resting in a book, both sides. *)
Definition resting (b : OrderBook) : list nat :=
  _buy_orders b ++ _sell_orders b.

(** Every order resting in the book has a positive amount. *)
Definition amounts_positive (h : list Order) (b : OrderBook) : Prop :=
  ∀ r, r ∈ resting b → (0 < amount (deref h r))%Z.

(** The book's own invariants: an object rests at most once, on the side
    it names, and the index leads from its id back to it (so no two
    resting orders share an id, which is what callers of [add_order]
    owe the book). *)
Definition book_wf (h : list Order) (b : OrderBook) : Prop :=
  NoDup (resting b)
  ∧ (∀ r, r ∈ _buy_orders b → side (deref h r) = BUY)
  ∧ (∀ r, r ∈ _sell_orders b → side (deref h r) = SELL)
  ∧ (∀ r, r ∈ resting b → _order_index b !! order_id (deref h r) = Some r).

(** All books of the system hold positive amounts only. *)
Definition all_positive (st : OrderManagement) : Prop :=
  ∀ sym b, _order_books st !! sym = Some b → amounts_positive (heap st) b.

(** Inputs as the transport layer lets them through: an added order has
    a positive amount. *)
Definition admissible (c : command) : Prop :=
  match c with
  | AddOrder _ _ _ amt _ => (0 < amt)%Z
  | _ => True
  end.

(** Orders as the calculator may assume them. *)
Definition nonneg_order (o : Order) : Prop := (0 ≤ amount o)%Z ∧ (0 ≤ price o)%Z.

(** ** The walk behind a trade

    [fills_of] is the walk of the calculator with one fill recorded per
    order touched; it reads a snapshot of order values and has no state.
    The loop of [TradeExecutor.execute] reads each order from the store at
    the moment it reaches it, after the mutations of earlier iterations. *)

Fixpoint fills_of (orders : list Order) (remaining : Z) : list OrderFill :=
  match orders with
  | [] => []
  | o :: rest =>
      if (remaining <=? 0)%Z then []
      else
        let consumed := Z.min (amount o) remaining in
        mkOrderFill (order_id o) consumed (price o)
          :: fills_of rest (remaining - consumed)%Z
  end.

Definition sum_filled (fills : list OrderFill) : Z :=
  foldr (λ f acc, filled_amount f + acc)%Z 0%Z fills.

Definition sum_value (fills : list OrderFill) : Z :=
  foldr (λ f acc, fill_price f * filled_amount f + acc)%Z 0%Z fills.

(** Total amount resting on one side. *)
Definition available (h : list Order) (b : OrderBook) (s : Side) : Z :=
  foldr (λ o acc, amount o + acc)%Z 0%Z (view h (OrderBook.get_orders b s)).


(** The state after one order of 10 and a trade of 5 against it. *)
Definition half_filled (uuid : string) (now : Z) : OrderManagement :=
  let st1 := (OrderManagement.add_order OrderManagement.init 1%Z "JPM" BUY 10%Z 20%Z).2 in
  (OrderManagement.place_trade uuid now st1 "JPM" BUY 5%Z).2.

(** ** Serialisation of [OrderFill] ([models.py]) *)

Definition OrderFill_to_dict (f : OrderFill) : gmap string pyval :=
  <["order_id" := PyInt (fill_order_id f)]>
  (<["filled_amount" := PyInt (filled_amount f)]>
  (<["fill_price" := PyInt (fill_price f)]> ∅)).

Definition OrderFill_from_dict (data : gmap string pyval)
  : result OrderFill_instance :=
  oid ← getitem data "order_id";
  amt ← getitem data "filled_amount";
  prc ← getitem data "fill_price";
  Return (mkOrderFill_instance oid amt prc).

(** ** What a trade leaves of a side *)

Definition other_side (s : Side) : Side :=
  match s with BUY => SELL | SELL => BUY end.

(** The orders of a snapshot after a walk for [a]: orders taken whole are
    gone, the order taken in part stays in place with the rest of its
    amount, the orders behind it are as they were. *)
Fixpoint remaining_after (orders : list Order) (a : Z) : list Order :=
  match orders with
  | [] => []
  | o :: rest =>
      if (a <=? 0)%Z then o :: rest
      else
        let consumed := Z.min (amount o) a in
        if (amount o - consumed =? 0)%Z
        then remaining_after rest (a - consumed)%Z
        else mkOrder (order_id o) (symbol o) (side o)
               (amount o - consumed)%Z (price o) :: rest
  end.

(** Total amount and total value of a list of orders. *)
Definition total_amount (orders : list Order) : Z :=
  foldr (λ o acc, amount o + acc)%Z 0%Z orders.

Definition total_value (orders : list Order) : Z :=
  foldr (λ o acc, price o * amount o + acc)%Z 0%Z orders.

(** ** A small book used to instantiate statements *)

Definition sample_heap : list Order :=
  [mkOrder 1 "JPM" BUY 20 20; mkOrder 4 "JPM" BUY 10 21; mkOrder 7 "JPM" SELL 5 30].

Definition sample_book : OrderBook :=
  mkOrderBook "JPM" [0; 1]%nat [2]%nat
    (<[1%Z := 0%nat]> (<[4%Z := 1%nat]> (<[7%Z := 2%nat]> ∅))).

(** Every book of the system keeps its sides in price-time priority. *)
Definition all_ordered (st : OrderManagement) : Prop :=
  ∀ sym b, _order_books st !! sym = Some b → priority_ordered (heap st) b.

(** Two stores that differ in amounts only. *)
Definition same_but_amounts (h h' : list Order) : Prop :=
  length h' = length h
  ∧ ∀ x, order_id (deref h' x) = order_id (deref h x)
         ∧ symbol (deref h' x) = symbol (deref h x)
         ∧ side (deref h' x) = side (deref h x)
         ∧ price (deref h' x) = price (deref h x).

(** The state after the two orders of the JPM scenario. *)
Definition two_orders : OrderManagement :=
  (OrderManagement.add_order
     (OrderManagement.add_order OrderManagement.init 1%Z "JPM" BUY 20%Z 20%Z).2
     4%Z "JPM" BUY 10%Z 21%Z).2.

(** ** Consistent system states

    The facade and its books describe the same orders: every book is well
    formed, its index only leads to orders resting in it, under their own
    id; every resting order is a stored object of the book's symbol that
    the facade has registered under its id; and every id the facade has
    registered leads to an object with that id that rests in the book of
    its symbol. *)
Definition consistent (st : OrderManagement) : Prop :=
  (∀ sym b, _order_books st !! sym = Some b →
     book_wf (heap st) b
     ∧ (∀ oid r, _order_index b !! oid = Some r →
          r ∈ resting b ∧ order_id (deref (heap st) r) = oid)
     ∧ (∀ r, r ∈ resting b →
          (r < length (heap st))%nat
          ∧ symbol (deref (heap st) r) = sym
          ∧ _orders st !! order_id (deref (heap st) r) = Some r))
  ∧ (∀ oid r, _orders st !! oid = Some r →
       order_id (deref (heap st) r) = oid
       ∧ ∃ b, _order_books st !! symbol (deref (heap st) r) = Some b
              ∧ r ∈ resting b).

(** The three conditions [consistent] puts on the book of one symbol. *)
Definition book_consistent (st : OrderManagement) (sym : string) (b : OrderBook)
  : Prop :=
  book_wf (heap st) b
  ∧ (∀ oid r, _order_index b !! oid = Some r →
       r ∈ resting b ∧ order_id (deref (heap st) r) = oid)
  ∧ (∀ r, r ∈ resting b →
       (r < length (heap st))%nat
       ∧ symbol (deref (heap st) r) = sym
       ∧ _orders st !! order_id (deref (heap st) r) = Some r).

(** ** The walk of a trade over references

    [walk h l a] lists the orders a trade for [a] takes whole, and says
    which order, if any, it takes in part and how much of it. *)
Fixpoint walk (h : list Order) (l : list nat) (a : Z)
  : list nat * option (nat * Z) :=
  match l with
  | [] => ([], None)
  | r :: rest =>
      if (a <=? 0)%Z then ([], None)
      else
        let c := Z.min (amount (deref h r)) a in
        if (amount (deref h r) - c =? 0)%Z
        then (r :: (walk h rest (a - c)%Z).1, (walk h rest (a - c)%Z).2)
        else ([], Some (r, c))
  end.

(** The fill of an order taken whole, and the fill of the order taken in
    part. *)
Definition full_fill (h : list Order) (r : nat) : OrderFill :=
  mkOrderFill (order_id (deref h r)) (amount (deref h r)) (price (deref h r)).

Definition part_fill (h : list Order) (p : option (nat * Z)) : list OrderFill :=
  match p with
  | Some (r, c) => [mkOrderFill (order_id (deref h r)) c (price (deref h r))]
  | None => []
  end.

Definition ids_of (h : list Order) (l : list nat) : list Z :=
  (order_id ∘ deref h) <$> l.

(** A trade has a half fill when one of its fills takes from a registered
    order exactly half of what the order held, leaving as much as it
    took. *)
Definition half_fill (st : OrderManagement) (t : Trade) : Prop :=
  ∃ f r, f ∈ order_fills t
         ∧ _orders st !! fill_order_id f = Some r
         ∧ (0 < filled_amount f)%Z
         ∧ amount (deref (heap st) r) = (2 * filled_amount f)%Z.

(** ** The HTTP handlers ([api/routes.py])

    The handler bodies, over the facade state that the dependency
    injection hands them.  Request validation, serialisation of the
    response and the mapping of an exception that leaves a handler to a
    status code belong to the web framework and are not modelled: a
    handler either responds, raises an [HTTPException] of its own, or
    lets an exception of the core pass. *)

Record OrderRequest := mkOrderRequest {
  req_order_id : Z;
  req_symbol : string;
  req_side : string;
  req_amount : Z;
  req_price : Z
}.

Record OrderResponse := mkOrderResponse {
  resp_order_id : Z;
  resp_symbol : string;
  resp_side : string;
  resp_amount : Z;
  resp_price : Z
}.

Record TradeRequest := mkTradeRequest {
  treq_symbol : string;
  treq_side : string;
  treq_amount : Z
}.

Record OrderFillResponse := mkOrderFillResponse {
  ofr_order_id : Z;
  ofr_filled_amount : Z;
  ofr_fill_price : Z
}.

Record TradeResponse := mkTradeResponse {
  tr_trade_id : string;
  tr_symbol : string;
  tr_side : string;
  tr_amount : Z;
  tr_total_price : Z;
  tr_executed_at : string;
  tr_order_fills : list OrderFillResponse
}.

Record OrderBookOrder := mkOrderBookOrder {
  obo_order_id : Z;
  obo_price : Z;
  obo_amount : Z
}.

Record OrderBookResponse := mkOrderBookResponse {
  obr_symbol : string;
  obr_buy_orders : list OrderBookOrder;
  obr_sell_orders : list OrderBookOrder
}.

Inductive raised :=
| HTTPException (status_code : Z) (error : string) (valid_values : list string)
| Passed (e : exception).

Inductive reply (A : Type) :=
| Responds (a : A)
| Fails (e : raised).
Arguments Responds {A} a.
Arguments Fails {A} e.

Module Routes.

(** The [HTTPException] of the two handlers that catch a bad side. *)
Definition invalid_side : raised :=
  HTTPException 400 "Invalid side" ["BUY"; "SELL"]%string.

(** [Side(text)] as the handlers call it. *)
Definition parse_side (text : string) : result Side :=
  match Side_of_value text with
  | Some sd => Return sd
  | None => Raise (ValueError (PyStr text))
  end.

(** POST /orders: [Side(...)] is evaluated among the arguments of the
    call and nothing is caught. *)
Definition add_order (st : OrderManagement) (order_request : OrderRequest)
  : reply OrderResponse * OrderManagement :=
  match parse_side (req_side order_request) with
  | Raise e => (Fails (Passed e), st)
  | Return sd =>
      let '(outcome, st') :=
        OrderManagement.add_order st (req_order_id order_request)
          (req_symbol order_request) sd
          (req_amount order_request) (req_price order_request) in
      match outcome with
      | Raise e => (Fails (Passed e), st')
      | Return _ =>
          (Responds (mkOrderResponse (req_order_id order_request)
                       (req_symbol order_request) (req_side order_request)
                       (req_amount order_request) (req_price order_request)),
           st')
      end
  end.

(** DELETE /orders/{order_id}: always answers 204. *)
Definition remove_order (st : OrderManagement) (oid : Z)
  : reply Z * OrderManagement :=
  (Responds 204%Z, OrderManagement.remove_order st oid).

(** GET /price *)
Definition calculate_price (st : OrderManagement)
    (sym side_text : string) (amt : Z) : reply Z * OrderManagement :=
  match parse_side side_text with
  | Raise _ => (Fails invalid_side, st)
  | Return sd =>
      let '(p, st') := OrderManagement.calculate_price st sym sd amt in
      (Responds p, st')
  end.

(** POST /trades; [isoformat] stands for [datetime.isoformat]. *)
Definition place_trade (isoformat : Z → string) (uuid : string) (now : Z)
    (st : OrderManagement) (trade_request : TradeRequest)
  : reply TradeResponse * OrderManagement :=
  match parse_side (treq_side trade_request) with
  | Raise _ => (Fails invalid_side, st)
  | Return sd =>
      let '(trade, st') :=
        OrderManagement.place_trade uuid now st (treq_symbol trade_request) sd
          (treq_amount trade_request) in
      (Responds
         (mkTradeResponse (trade_id trade) (trade_symbol trade)
            (Side_value (trade_side trade)) (trade_amount trade)
            (total_price trade) (isoformat (executed_at trade))
            ((λ fill, mkOrderFillResponse (fill_order_id fill)
                        (filled_amount fill) (fill_price fill))
               <$> order_fills trade)),
       st')
  end.

(** GET /orderbook/{symbol}: reads the facade's books directly and
    changes nothing. *)
Definition get_order_book (st : OrderManagement) (sym : string)
  : OrderBookResponse :=
  match _order_books st !! sym with
  | None => mkOrderBookResponse sym [] []
  | Some order_book =>
      let entry (o : Order) := mkOrderBookOrder (order_id o) (price o) (amount o) in
      mkOrderBookResponse sym
        (entry <$> view (heap st) (OrderBook.get_orders order_book BUY))
        (entry <$> view (heap st) (OrderBook.get_orders order_book SELL))
  end.

End Routes.

(** A run of commands none of whose trades has a half fill, each trade
    judged on the state it is placed in. *)
Fixpoint no_half_fills (st : OrderManagement) (cs : list command) : Prop :=
  match cs with
  | [] => True
  | c :: cs' =>
      match c with
      | PlaceTrade uuid now sym s a =>
          ¬ half_fill st (OrderManagement.place_trade uuid now st sym s a).1
      | _ => True
      end
      ∧ no_half_fills (exec st c) cs'
  end.

(** * Properties *)

Local Open Scope Z_scope.

(** ** Serialisation *)

(** An instance tells all five fields: orders read as the same instance
    are equal. *)
Lemma Order_as_instance_inj (o1 o2 : Order) :
  Order_as_instance o1 = Order_as_instance o2 → o1 = o2.
Proof.
  destruct o1, o2. unfold Order_as_instance; simpl. by intros [= -> -> -> -> ->].
Qed.

(** C10. [Order.from_dict (order.to_dict ())] returns an order equal to
    the original in all five fields, for either side. *)
Theorem from_dict_to_dict (o : Order) : from_dict (to_dict o) = Return o.
Proof.
  destruct o as [oid sym [] amt prc]; reflexivity.
Qed.

(** ** The price calculator *)

Section calculator.
Import PriceCalculator.

Lemma calculate_loop_acc orders total remaining :
  calculate_loop orders total remaining
  = total + calculate_loop orders 0 remaining.
Proof.
  revert total remaining.
  induction orders as [|o rest IH]; intros total remaining; simpl.
  - lia.
  - destruct (remaining <=? 0); [lia|].
    rewrite IH, (IH (0 + _)). lia.
Qed.

Lemma calculate_cons o rest a :
  calculate (o :: rest) a
  = if a <=? 0 then 0
    else price o * Z.min (amount o) a + calculate rest (a - Z.min (amount o) a).
Proof.
  unfold calculate; simpl. destruct (a <=? 0); [done|].
  by rewrite calculate_loop_acc.
Qed.

Lemma calculate_nil a : calculate [] a = 0.
Proof. reflexivity. Qed.

Lemma calculate_nonpos orders a : a ≤ 0 → calculate orders a = 0.
Proof.
  intros Ha. destruct orders as [|o rest]; [done|].
  rewrite calculate_cons. by rewrite (proj2 (Z.leb_le a 0) Ha).
Qed.

Lemma calculate_nonneg orders a :
  Forall nonneg_order orders → 0 ≤ calculate orders a.
Proof.
  intros Hall. revert a.
  induction Hall as [|o rest [Hamt Hprc] _ IH]; intros a.
  - by rewrite calculate_nil.
  - rewrite calculate_cons. destruct (Z.leb_spec a 0); [lia|].
    specialize (IH (a - Z.min (amount o) a)). nia.
Qed.

Lemma calculate_mono orders a1 a2 :
  Forall nonneg_order orders → a1 ≤ a2 →
  calculate orders a1 ≤ calculate orders a2.
Proof.
  intros Hall. revert a1 a2.
  induction Hall as [|o rest [Hamt Hprc] Hrest IH]; intros a1 a2 Hle.
  - by rewrite !calculate_nil.
  - destruct (Z.leb_spec a1 0) as [Hneg|Hpos].
    + rewrite (calculate_nonpos _ a1) by done.
      apply calculate_nonneg. by constructor.
    + rewrite !calculate_cons.
      destruct (Z.leb_spec a1 0); [lia|].
      destruct (Z.leb_spec a2 0); [lia|].
      assert (a1 - Z.min (amount o) a1 ≤ a2 - Z.min (amount o) a2) as Hrem by lia.
      specialize (IH _ _ Hrem).
      assert (Z.min (amount o) a1 ≤ Z.min (amount o) a2) by lia.
      nia.
Qed.

(** C7. Over orders with non-negative amounts and prices the computed
    price is non-decreasing in the requested amount; it is 0 for a
    request [a ≤ 0] and for the empty list. *)
Theorem calculate_monotone_step (orders : list Order) (a1 a2 : Z) :
  Forall nonneg_order orders →
  a1 ≤ a2 →
  calculate orders a1 ≤ calculate orders a2
  ∧ (∀ a, a ≤ 0 → calculate orders a = 0)
  ∧ (∀ a, calculate [] a = 0).
Proof.
  intros Hall Hle. split; [by apply calculate_mono|].
  split; [intros a; apply calculate_nonpos | apply calculate_nil].
Qed.

Lemma calculate_monotone_step_witness :
  let orders := [mkOrder 1 "JPM" BUY 20 20; mkOrder 4 "JPM" BUY 10 21] in
  calculate orders 10 ≤ calculate orders 22
  ∧ (∀ a, a ≤ 0 → calculate orders a = 0)
  ∧ (∀ a, calculate [] a = 0).
Proof.
  apply calculate_monotone_step.
  - repeat constructor; simpl; lia.
  - lia.
Defined.

End calculator.

(** ** The facade: rejection, removal, scenarios *)

(** Duplicate rejection happens before anything is touched, whatever the
    symbol, side, amount or price of the rejected order. *)
Lemma add_order_known_id st oid sym s amt prc :
  is_Some (_orders st !! oid) →
  OrderManagement.add_order st oid sym s amt prc
  = (Raise (ValueError (PyInt oid)), st).
Proof.
  intros [r Hr]. unfold OrderManagement.add_order. by rewrite Hr.
Qed.

(** Rejection of a registered id.  When the facade has the id in its
    system-wide index — or, the indices being in agreement, some book has
    it, under whatever symbol — [add_order] raises the duplicate-id
    [ValueError] and returns the very state it was given: store, books
    and both indices are untouched. *)
Theorem add_order_duplicate_atomic
    (st : OrderManagement) (oid : Z) (sym : string) (s : Side) (amt prc : Z) :
  is_Some (_orders st !! oid) ∨ (indices_agree st ∧ in_some_book st oid) →
  let '(outcome, st') := OrderManagement.add_order st oid sym s amt prc in
  outcome = Raise (ValueError (PyInt oid))
  ∧ st' = st
  ∧ heap st' = heap st
  ∧ _order_books st' = _order_books st
  ∧ _orders st' = _orders st.
Proof.
  intros Hexists.
  assert (is_Some (_orders st !! oid)) as Hin.
  { destruct Hexists as [|[Hagree Hbook]]; [done|]. by apply (Hagree oid). }
  by rewrite add_order_known_id.
Qed.

Lemma add_order_duplicate_atomic_witness :
  let st := (OrderManagement.add_order OrderManagement.init 1 "JPM" BUY 20 20).2 in
  let '(outcome, st') := OrderManagement.add_order st 1 "GOOG" SELL 50 25 in
  outcome = Raise (ValueError (PyInt 1))
  ∧ st' = st
  ∧ heap st' = heap st
  ∧ _order_books st' = _order_books st
  ∧ _orders st' = _orders st.
Proof.
  apply (add_order_duplicate_atomic
           (OrderManagement.add_order OrderManagement.init 1 "JPM" BUY 20 20).2
           1 "GOOG" SELL 50 25).
  left. vm_compute. eauto.
Defined.

(** C9. [remove_order] on an id the facade does not know returns
    normally (the operation has no raising path) and returns the state
    unchanged; so does a second call right after. *)
Theorem remove_order_missing_noop (st : OrderManagement) (oid : Z) :
  _orders st !! oid = None →
  OrderManagement.remove_order st oid = st
  ∧ OrderManagement.remove_order (OrderManagement.remove_order st oid) oid = st.
Proof.
  intros Hnone.
  assert (OrderManagement.remove_order st oid = st) as Heq.
  { unfold OrderManagement.remove_order. by rewrite Hnone. }
  by rewrite !Heq.
Qed.

Lemma remove_order_missing_noop_witness :
  let st := (OrderManagement.add_order OrderManagement.init 1 "JPM" BUY 20 20).2 in
  OrderManagement.remove_order st 999 = st
  ∧ OrderManagement.remove_order (OrderManagement.remove_order st 999) 999 = st.
Proof.
  apply (remove_order_missing_noop
           (OrderManagement.add_order OrderManagement.init 1 "JPM" BUY 20 20).2 999).
  vm_compute. reflexivity.
Defined.

(** C8. The end-to-end scenario: two BUY orders on JPM, a price query for
    22, a trade of 22 and a price query for 8 afterwards. *)
Theorem jpm_scenario (uuid : string) (now : Z) :
  let st0 := OrderManagement.init in
  let st1 := (OrderManagement.add_order st0 1 "JPM" BUY 20 20).2 in
  let st2 := (OrderManagement.add_order st1 4 "JPM" BUY 10 21).2 in
  let '(p22, st3) := OrderManagement.calculate_price st2 "JPM" BUY 22 in
  let '(trade, st4) := OrderManagement.place_trade uuid now st3 "JPM" BUY 22 in
  let '(p8, _) := OrderManagement.calculate_price st4 "JPM" BUY 8 in
  (OrderManagement.add_order st0 1 "JPM" BUY 20 20).1 = Return ()
  ∧ (OrderManagement.add_order st1 4 "JPM" BUY 10 21).1 = Return ()
  ∧ p22 = 442
  ∧ trade_amount trade = 22
  ∧ total_price trade = 442
  ∧ order_fills trade = [mkOrderFill 1 20 20; mkOrderFill 4 2 21]
  ∧ p8 = 168.
Proof.
  vm_compute. repeat split; reflexivity.
Qed.

(** ** Index reconciliation after a trade *)

Lemma half_filled_reachable uuid now : reachable (half_filled uuid now).
Proof.
  by exists [AddOrder 1 "JPM" BUY 10 20; PlaceTrade uuid now "JPM" BUY 5].
Qed.

(** C1. Filling half of an order: the executor has already lowered the
    shared object's amount to 5 when the facade subtracts the fill again,
    finds 0 and drops id 1 from its index, while the order still rests in
    the JPM book with 5 left.  The indices disagree on a reachable
    state. *)
Theorem place_trade_half_fill_diverges (uuid : string) (now : Z) :
  let st := half_filled uuid now in
  reachable st
  ∧ _orders st !! 1 = None
  ∧ (∃ b r, _order_books st !! "JPM" = Some b
            ∧ _order_index b !! 1 = Some r
            ∧ OrderBook.get_orders b BUY = [r]
            ∧ amount (deref (heap st) r) = 5)
  ∧ ¬ indices_agree st.
Proof.
  intros st. split; [apply half_filled_reachable|].
  assert (_orders st !! 1 = None) as Hfacade by (vm_compute; reflexivity).
  assert (∃ b r, _order_books st !! "JPM" = Some b
                 ∧ _order_index b !! 1 = Some r
                 ∧ OrderBook.get_orders b BUY = [r]
                 ∧ amount (deref (heap st) r) = 5) as Hbook.
  { vm_compute. eexists _, _. repeat split; reflexivity. }
  split; [done|]. split; [done|].
  intros Hagree. destruct (Hagree 1) as [Hiff _].
  destruct Hbook as (b & r & Hb & Hr & _).
  assert (is_Some (_orders st !! 1)) as [? Hsome].
  { apply Hiff. exists "JPM"%string, b. split; [done|]. by exists r. }
  rewrite Hfacade in Hsome. discriminate.
Qed.

(** What the divergence leads to: the facade, no longer knowing id 1,
    accepts a second order under that id next to the resting one. *)
Example half_filled_admits_duplicate uuid now :
  let '(outcome, st) :=
    OrderManagement.add_order (half_filled uuid now) 1 "JPM" BUY 3 20 in
  outcome = Return ()
  ∧ ∃ b, _order_books st !! "JPM" = Some b
         ∧ order_id <$> view (heap st) (OrderBook.get_orders b BUY) = [1; 1].
Proof.
  vm_compute. split; [done|]. eexists. split; reflexivity.
Qed.

(** C3. Duplicate rejection looks the id up in the facade's index only.
    In the reachable state where order 1 rests, half filled, in the JPM
    book and the facade has dropped its id, an order with id 1 exists in
    the system, and yet [add_order] under id 1 is accepted, for whatever
    symbol, side, amount and price: the call returns normally instead of
    raising the duplicate-id [ValueError], and the state is not the one
    before the call: a new object is created and registered under
    id 1. *)
Theorem add_order_duplicate_accepted
    (uuid : string) (now : Z) (sym : string) (s : Side) (amt prc : Z) :
  let st := half_filled uuid now in
  reachable st
  ∧ in_some_book st 1
  ∧ let '(outcome, st') := OrderManagement.add_order st 1 sym s amt prc in
    outcome = Return ()
    ∧ st' ≠ st
    ∧ length (heap st') = S (length (heap st))
    ∧ _orders st !! 1 = None
    ∧ _orders st' !! 1 = Some (length (heap st)).
Proof.
  intros st. split; [apply half_filled_reachable|].
  assert (_orders st !! 1 = None) as Hnone by (vm_compute; reflexivity).
  split.
  { vm_compute. eexists "JPM"%string, _. split; [reflexivity|]. by eexists. }
  unfold OrderManagement.add_order. rewrite Hnone. unfold alloc.
  destruct (OrderManagement._get_or_create_order_book _ sym) as [ob st2] eqn:Hg.
  assert (_orders st2 = _orders st) as Hsame.
  { unfold OrderManagement._get_or_create_order_book in Hg. simpl in Hg.
    destruct (_order_books st !! sym); by simplify_eq. }
  split; [done|].
  assert (length (heap st ++ [mkOrder 1 sym s amt prc]) = S (length (heap st)))
    as Hlen by (rewrite length_app; simpl; lia).
  split.
  { intros Heq. apply (f_equal heap) in Heq. simpl in Heq.
    rewrite Heq in Hlen. lia. }
  split; [exact Hlen|]. split; [done|].
  cbn [_orders]. by rewrite lookup_insert_eq.
Qed.

(** And further: with two orders under id 1 in the book, a trade that
    fills the older one completely asks the book to remove id 1, which
    takes out the newer one; the filled order stays on the BUY side. *)
Example half_filled_then_duplicate_then_trade uuid now uuid' now' :
  let st := (OrderManagement.add_order (half_filled uuid now) 1 "JPM" BUY 3 20).2 in
  let '(trade, st') := OrderManagement.place_trade uuid' now' st "JPM" BUY 5 in
  order_fills trade = [mkOrderFill 1 5 20]
  ∧ ∃ b, _order_books st' !! "JPM" = Some b
         ∧ view (heap st') (OrderBook.get_orders b BUY) = [mkOrder 1 "JPM" BUY 5 20]
         ∧ OrderBook.get_order b 1 = None.
Proof.
  vm_compute. split; [done|]. eexists. repeat split; reflexivity.
Qed.

(** ** The execution loop *)

Section executor.
Import TradeExecutor.

Lemma loop_done orders s : ex_remaining s ≤ 0 → loop orders s = s.
Proof.
  intros Hrem. destruct orders as [|r rest]; [done|]; simpl.
  by rewrite (proj2 (Z.leb_le _ _) Hrem).
Qed.

Lemma step_fields r s :
  let o := deref (ex_heap s) r in
  let consumed := Z.min (amount o) (ex_remaining s) in
  ex_fills (step r s)
    = ex_fills s ++ [mkOrderFill (order_id o) consumed (price o)]
  ∧ ex_remaining (step r s) = ex_remaining s - consumed
  ∧ ex_actual_filled (step r s) = ex_actual_filled s + consumed
  ∧ ex_actual_price (step r s) = ex_actual_price s + price o * consumed.
Proof.
  unfold step; simpl.
  by destruct (_ =? 0).
Qed.

(** The store changes only in an iteration that leaves something of the
    order, and such an iteration uses up the whole request. *)
Lemma step_heap r s :
  ex_heap (step r s) = ex_heap s ∨ ex_remaining (step r s) = 0.
Proof.
  unfold step; simpl.
  destruct (Z.eqb_spec
    (amount (deref (ex_heap s) r)
     - Z.min (amount (deref (ex_heap s) r)) (ex_remaining s)) 0) as [Hz|Hnz];
    simpl; [by left|right]. lia.
Qed.

Lemma fills_of_nonpos orders a : a ≤ 0 → fills_of orders a = [].
Proof.
  intros Ha. destruct orders; [done|]; simpl.
  by rewrite (proj2 (Z.leb_le _ _) Ha).
Qed.

Lemma sum_filled_app f1 f2 :
  sum_filled (f1 ++ f2) = sum_filled f1 + sum_filled f2.
Proof. induction f1 as [|f f1 IH]; simpl; [done|]. rewrite IH. lia. Qed.

Lemma sum_value_app f1 f2 :
  sum_value (f1 ++ f2) = sum_value f1 + sum_value f2.
Proof. induction f1 as [|f f1 IH]; simpl; [done|]. rewrite IH. lia. Qed.

(** The loop produces the fills of the snapshot taken at its start. *)
Lemma loop_fills orders s :
  let fs := fills_of (view (ex_heap s) orders) (ex_remaining s) in
  ex_fills (loop orders s) = ex_fills s ++ fs
  ∧ ex_actual_filled (loop orders s) = ex_actual_filled s + sum_filled fs
  ∧ ex_actual_price (loop orders s) = ex_actual_price s + sum_value fs.
Proof.
  revert s. induction orders as [|r rest IH]; intros s; simpl.
  - rewrite app_nil_r. repeat split; lia.
  - destruct (Z.leb_spec (ex_remaining s) 0) as [Hstop|Hgo]; simpl.
    { rewrite app_nil_r. repeat split; lia. }
    destruct (step_fields r s) as (Hf & Hr & Haf & Hap).
    destruct (step_heap r s) as [Hkeep|Hzero].
    + destruct (IH (step r s)) as (IHf & IHaf & IHap).
      rewrite Hkeep, Hr in IHf, IHaf, IHap.
      rewrite IHf, IHaf, IHap, Hf, Haf, Hap, <-app_assoc. simpl.
      repeat split; lia.
    + rewrite loop_done by lia.
      rewrite Hr in Hzero.
      rewrite (fills_of_nonpos _ (_ - _)) by lia.
      rewrite Hf, Haf, Hap. simpl. repeat split; lia.
Qed.

Lemma calculate_fills orders a :
  PriceCalculator.calculate orders a = sum_value (fills_of orders a).
Proof.
  revert a. induction orders as [|o rest IH]; intros a; [done|].
  rewrite calculate_cons; simpl.
  destruct (a <=? 0); [done|]. simpl. by rewrite IH.
Qed.

Lemma execute_trade uuid now h b s a :
  let fs := fills_of (view h (OrderBook.get_orders b s)) a in
  let t := (execute uuid now h b s a).1.1 in
  order_fills t = fs
  ∧ trade_amount t = sum_filled fs
  ∧ total_price t = sum_value fs
  ∧ trade_side t = s.
Proof.
  unfold execute; simpl.
  destruct (loop_fills (OrderBook.get_orders b s) (mkExec h b [] a 0 0))
    as (Hf & Haf & Hap); simpl in *.
  by rewrite Hf, Haf, Hap.
Qed.

Lemma sum_filled_le orders a : 0 ≤ a → sum_filled (fills_of orders a) ≤ a.
Proof.
  revert a. induction orders as [|o rest IH]; intros a Ha; simpl; [done|].
  destruct (Z.leb_spec a 0); simpl; [lia|].
  specialize (IH (a - Z.min (amount o) a)). lia.
Qed.

Lemma sum_filled_short orders a :
  Forall (λ o, 0 < amount o) orders →
  foldr (λ o acc, amount o + acc) 0 orders < a →
  sum_filled (fills_of orders a) = foldr (λ o acc, amount o + acc) 0 orders.
Proof.
  intros Hall. revert a.
  induction Hall as [|o rest Hpos Hrest IH]; intros a Hlt; simpl in *.
  - done.
  - assert (0 ≤ foldr (λ o acc, amount o + acc) 0 rest) as Hnn.
    { clear -Hrest. induction Hrest; simpl; lia. }
    destruct (Z.leb_spec a 0); simpl; [lia|].
    rewrite Z.min_l by lia. rewrite IH by lia. done.
Qed.

Lemma get_or_create_heap st sym :
  heap (OrderManagement._get_or_create_order_book st sym).2 = heap st
  ∧ _orders (OrderManagement._get_or_create_order_book st sym).2 = _orders st.
Proof.
  unfold OrderManagement._get_or_create_order_book.
  by destruct (_order_books st !! sym).
Qed.

Lemma get_or_create_lookup st sym :
  _order_books (OrderManagement._get_or_create_order_book st sym).2 !! sym
  = Some (OrderManagement._get_or_create_order_book st sym).1.
Proof.
  unfold OrderManagement._get_or_create_order_book.
  destruct (_order_books st !! sym) eqn:Hb; simpl; [done|].
  apply lookup_insert_eq.
Qed.

Lemma get_or_create_twice st sym :
  OrderManagement._get_or_create_order_book
    (OrderManagement._get_or_create_order_book st sym).2 sym
  = OrderManagement._get_or_create_order_book st sym.
Proof.
  pose proof (get_or_create_lookup st sym) as Hl.
  destruct (OrderManagement._get_or_create_order_book st sym) as [bk st1].
  simpl in *. unfold OrderManagement._get_or_create_order_book. by rewrite Hl.
Qed.

(** The trade handed back by the facade is the executor's. *)
Lemma place_trade_trade uuid now st sym s a :
  let bs := OrderManagement._get_or_create_order_book st sym in
  (OrderManagement.place_trade uuid now st sym s a).1
  = (execute uuid now (heap bs.2) bs.1 s a).1.1.
Proof.
  unfold OrderManagement.place_trade.
  destruct (OrderManagement._get_or_create_order_book st sym) as [bk st1].
  simpl. by destruct (execute uuid now (heap st1) bk s a) as [[t h'] b'].
Qed.

(** C2. The trade returned by [execute] carries the price that the
    calculator gives for the side's orders as they are before the trade
    touches anything; and so the facade's [calculate_price] followed by
    [place_trade] with the same arguments report the same price. *)
Theorem execute_price_is_calculated
    (uuid : string) (now : Z) (h : list Order) (b : OrderBook)
    (s : Side) (a : Z) :
  0 ≤ a →
  total_price (execute uuid now h b s a).1.1
    = PriceCalculator.calculate (view h (OrderBook.get_orders b s)) a
  ∧ ∀ st sym,
      let '(p, st1) := OrderManagement.calculate_price st sym s a in
      let '(trade, _) := OrderManagement.place_trade uuid now st1 sym s a in
      total_price trade = p.
Proof.
  intros _. split.
  - destruct (execute_trade uuid now h b s a) as (_ & _ & Hp & _).
    by rewrite Hp, calculate_fills.
  - intros st sym.
    pose proof (place_trade_trade uuid now
                  (OrderManagement._get_or_create_order_book st sym).2 sym s a)
      as Htrade.
    cbv zeta in Htrade. rewrite get_or_create_twice in Htrade.
    unfold OrderManagement.calculate_price.
    destruct (OrderManagement._get_or_create_order_book st sym) as [bk st1].
    cbn [fst snd] in Htrade.
    destruct (OrderManagement.place_trade uuid now st1 sym s a) as [trade st2].
    cbn [fst snd] in Htrade. rewrite Htrade.
    destruct (execute_trade uuid now (heap st1) bk s a) as (_ & _ & Hp & _).
    by rewrite Hp, calculate_fills.
Qed.

Lemma execute_price_is_calculated_witness :
  let h := [mkOrder 1 "JPM" BUY 20 20; mkOrder 4 "JPM" BUY 10 21] in
  let b := mkOrderBook "JPM" [0; 1]%nat [] (<[1 := 0%nat]> (<[4 := 1%nat]> ∅)) in
  total_price (execute "t" 0 h b BUY 22).1.1
    = PriceCalculator.calculate (view h (OrderBook.get_orders b BUY)) 22
  ∧ ∀ st sym,
      let '(p, st1) := OrderManagement.calculate_price st sym BUY 22 in
      let '(trade, _) := OrderManagement.place_trade "t" 0 st1 sym BUY 22 in
      total_price trade = p.
Proof.
  apply (execute_price_is_calculated "t" 0
           [mkOrder 1 "JPM" BUY 20 20; mkOrder 4 "JPM" BUY 10 21]
           (mkOrderBook "JPM" [0; 1]%nat [] (<[1 := 0%nat]> (<[4 := 1%nat]> ∅)))
           BUY 22).
  lia.
Defined.

(** C4. Against a book whose resting orders all have a positive amount
    and for a request [a ≥ 0], [execute] returns a trade whose fills add
    up to its amount, whose amount does not exceed the request, and
    whose price is the sum of [fill_price * filled_amount]; a request
    above the side's resting total is filled with exactly that total. *)
Theorem execute_fill_conservation
    (uuid : string) (now : Z) (h : list Order) (b : OrderBook)
    (s : Side) (a : Z) :
  amounts_positive h b →
  0 ≤ a →
  ∃ t h' b',
    execute uuid now h b s a = (t, h', b')
    ∧ sum_filled (order_fills t) = trade_amount t
    ∧ trade_amount t ≤ a
    ∧ total_price t = sum_value (order_fills t)
    ∧ (available h b s < a →
       trade_amount t = available h b s ∧ trade_amount t < a).
Proof.
  intros Hpos Ha.
  destruct (execute uuid now h b s a) as [[t h'] b'] eqn:He.
  exists t, h', b'. split; [done|].
  destruct (execute_trade uuid now h b s a) as (Hf & Hamt & Hp & _).
  rewrite He in Hf, Hamt, Hp; simpl in *.
  rewrite Hf, Hamt, Hp. split; [done|].
  split; [by apply sum_filled_le|]. split; [done|].
  intros Hshort. unfold available in *.
  rewrite sum_filled_short; [done| |done].
  unfold view. apply Forall_fmap, Forall_forall. intros r Hr. simpl.
  apply Hpos. unfold resting. rewrite elem_of_app. destruct s; simpl in Hr; auto.
Qed.

Lemma execute_fill_conservation_witness :
  let h := [mkOrder 1 "JPM" BUY 20 20; mkOrder 4 "JPM" BUY 10 21] in
  let b := mkOrderBook "JPM" [0; 1]%nat [] (<[1 := 0%nat]> (<[4 := 1%nat]> ∅)) in
  ∃ t h' b',
    execute "t" 0 h b BUY 50 = (t, h', b')
    ∧ sum_filled (order_fills t) = trade_amount t
    ∧ trade_amount t ≤ 50
    ∧ total_price t = sum_value (order_fills t)
    ∧ (available h b BUY < 50 →
       trade_amount t = available h b BUY ∧ trade_amount t < 50).
Proof.
  apply (execute_fill_conservation "t" 0
           [mkOrder 1 "JPM" BUY 20 20; mkOrder 4 "JPM" BUY 10 21]
           (mkOrderBook "JPM" [0; 1]%nat [] (<[1 := 0%nat]> (<[4 := 1%nat]> ∅)))
           BUY 50).
  - intros r Hr. simpl in Hr.
    repeat (apply elem_of_cons in Hr as [->|Hr]; [vm_compute; reflexivity|]).
    by apply elem_of_nil in Hr.
  - lia.
Defined.

End executor.

(** ** The store under allocation and amount updates *)

Lemma deref_alloc_old h o r : (r < length h)%nat → deref (h ++ [o]) r = deref h r.
Proof. intros Hr. unfold deref. by rewrite lookup_app_l. Qed.

Lemma deref_alloc_new h o : deref (h ++ [o]) (length h) = o.
Proof. unfold deref. by rewrite list_lookup_middle. Qed.

Lemma deref_set_amount_eq h r v x :
  deref (set_amount h r v) x
  = if decide (x = r ∧ (r < length h)%nat)
    then mkOrder (order_id (deref h r)) (symbol (deref h r)) (side (deref h r))
           v (price (deref h r))
    else deref h x.
Proof.
  unfold set_amount.
  generalize (mkOrder (order_id (deref h r)) (symbol (deref h r))
                (side (deref h r)) v (price (deref h r))) as o'.
  intros o'. unfold deref.
  destruct (decide (x = r)) as [->|Hne].
  - destruct (decide (r < length h)%nat) as [Hlt|Hge].
    + rewrite list_lookup_insert_eq by done. by rewrite decide_True.
    + rewrite list_insert_ge by lia. by rewrite decide_False by tauto.
  - rewrite list_lookup_insert_ne by done. by rewrite decide_False by tauto.
Qed.

(** Writing the amount of one object leaves every other field of every
    object alone. *)
Lemma deref_set_amount h r v x :
  order_id (deref (set_amount h r v) x) = order_id (deref h x)
  ∧ symbol (deref (set_amount h r v) x) = symbol (deref h x)
  ∧ side (deref (set_amount h r v) x) = side (deref h x)
  ∧ price (deref (set_amount h r v) x) = price (deref h x)
  ∧ amount (deref (set_amount h r v) x)
    = if decide (x = r ∧ (r < length h)%nat) then v else amount (deref h x).
Proof.
  rewrite deref_set_amount_eq.
  destruct (decide (x = r ∧ (r < length h)%nat)) as [[-> _]|_]; done.
Qed.

Lemma length_set_amount h r v : length (set_amount h r v) = length h.
Proof. unfold set_amount. apply length_insert. Qed.

(** ** The sorted collection *)

Section sorted_list.
Variable key : Order → Z.

Lemma add_perm h r l : SortedList.add key h r l ≡ₚ r :: l.
Proof.
  induction l as [|x l IH]; simpl; [done|].
  destruct (_ <=? _); [|done].
  rewrite IH. apply Permutation_swap.
Qed.

Lemma add_sorted h r l :
  StronglySorted (earlier key h) l →
  Forall (λ x, (x < r)%nat) l →
  StronglySorted (earlier key h) (SortedList.add key h r l).
Proof.
  intros Hs Hlt. induction Hs as [|x l Hs IH Hx]; simpl.
  - repeat constructor.
  - apply Forall_cons in Hlt as [Hxr Hlt].
    destruct (Z.leb_spec (key (deref h x)) (key (deref h r))) as [Hle|Hgt].
    + constructor; [by apply IH|].
      rewrite add_perm. constructor; [|done].
      unfold earlier. lia.
    + constructor; [by constructor|].
      constructor; [unfold earlier; lia|].
      eapply Forall_impl; [exact Hx|]. unfold earlier. intros y Hy. simpl in Hy. lia.
Qed.

Lemma discard_Forall (P : nat → Prop) h r l :
  Forall P l → Forall P (SortedList.discard h r l).
Proof.
  induction 1 as [|x l Hx Hl IH]; simpl; [done|].
  destruct (decide _); [done|by constructor].
Qed.

Lemma discard_sorted h h' r l :
  StronglySorted (earlier key h) l →
  StronglySorted (earlier key h) (SortedList.discard h' r l).
Proof.
  induction 1 as [|x l Hs IH Hx]; simpl; [constructor|].
  destruct (decide _); [done|].
  constructor; [done|by apply discard_Forall].
Qed.

(** Sortedness only looks at the keys of the members. *)
Lemma sorted_same_keys h h' l :
  (∀ r, r ∈ l → key (deref h' r) = key (deref h r)) →
  StronglySorted (earlier key h) l →
  StronglySorted (earlier key h') l.
Proof.
  intros Hk Hs. induction Hs as [|x l Hs IH Hx]; [constructor|].
  constructor.
  - apply IH. intros r Hr. apply Hk. by right.
  - apply Forall_forall. intros y Hy.
    rewrite Forall_forall in Hx. specialize (Hx y Hy).
    unfold earlier in *.
    rewrite (Hk x) by left. rewrite (Hk y) by (by right). done.
Qed.

End sorted_list.

Lemma sorted_lookup {A} (R : A → A → Prop) (l : list A) (i j : nat) x y :
  StronglySorted R l → (i < j)%nat → l !! i = Some x → l !! j = Some y → R x y.
Proof.
  intros Hs. revert i j. induction Hs as [|z l Hs IH Hz]; intros i j Hij Hi Hj.
  - done.
  - destruct j as [|j]; [lia|]. simpl in Hj.
    destruct i as [|i]; simpl in Hi.
    + injection Hi as ->. rewrite Forall_forall in Hz.
      apply Hz. by eapply list_elem_of_lookup_2.
    + apply (IH i j); [lia|done..].
Qed.

(** ** Price-time priority is invariant under the book's operations *)

Lemma init_priority_ordered h sym : priority_ordered h (OrderBook.init sym).
Proof. repeat split; constructor. Qed.

Lemma apply_op_priority_ordered h b op :
  priority_ordered h b →
  priority_ordered (apply_op (h, b) op).1 (apply_op (h, b) op).2.
Proof.
  intros (Hbuy & Hsell & Hb & Hs).
  assert (∀ o (key : Order → Z) l,
            Forall (λ r, (r < length h)%nat) l →
            StronglySorted (earlier key h) l →
            StronglySorted (earlier key (h ++ [o])) l) as Hgrow.
  { intros o key l Hl. apply sorted_same_keys.
    intros r Hr. rewrite Forall_forall in Hl. by rewrite deref_alloc_old by auto. }
  assert (∀ o sd l,
            Forall (λ r, (r < length h)%nat ∧ side (deref h r) = sd) l →
            Forall (λ r, (r < length (h ++ [o]))%nat
                         ∧ side (deref (h ++ [o]) r) = sd) l) as Hside.
  { intros o sd l Hl. eapply Forall_impl; [exact Hl|]. intros r [Hr Hsd].
    rewrite length_app, deref_alloc_old by done. simpl. split; [lia|done]. }
  assert (∀ sd l, Forall (λ r, (r < length h)%nat ∧ side (deref h r) = sd) l →
                  Forall (λ r, (r < length h)%nat) l) as Hlt.
  { intros sd l Hl. eapply Forall_impl; [exact Hl|]. simpl. tauto. }
  unfold priority_ordered.
  destruct op as [o|oid|oid v]; simpl.
  - unfold OrderBook.add_order. rewrite deref_alloc_new.
    destruct (side o) eqn:Hsd; simpl; repeat split; eauto.
    + apply add_sorted; eauto.
    + rewrite add_perm. constructor; [|by apply Hside].
      rewrite length_app, deref_alloc_new. simpl. split; [lia|done].
    + apply add_sorted; eauto.
    + rewrite add_perm. constructor; [|by apply Hside].
      rewrite length_app, deref_alloc_new. simpl. split; [lia|done].
  - unfold OrderBook.remove_order.
    destruct (_order_index b !! oid) as [r|]; simpl; [|done].
    destruct (side (deref h r)); simpl; repeat split;
      auto using discard_sorted, discard_Forall.
  - unfold OrderBook.update_order_amount.
    destruct (_order_index b !! oid) as [r|]; simpl; [|done].
    repeat split.
    + eapply sorted_same_keys; [|exact Hbuy].
      intros x _. unfold buy_key. apply deref_set_amount.
    + eapply sorted_same_keys; [|exact Hsell].
      intros x _. unfold sell_key. f_equal. apply deref_set_amount.
    + eapply Forall_impl; [exact Hb|]. intros x [Hx Hsd]. simpl.
      rewrite length_set_amount. split; [done|].
      by rewrite (proj1 (proj2 (proj2 (deref_set_amount h r v x)))).
    + eapply Forall_impl; [exact Hs|]. intros x [Hx Hsd]. simpl.
      rewrite length_set_amount. split; [done|].
      by rewrite (proj1 (proj2 (proj2 (deref_set_amount h r v x)))).
Qed.

Lemma run_ops_priority_ordered h b ops :
  priority_ordered h b →
  priority_ordered (run_ops h b ops).1 (run_ops h b ops).2.
Proof.
  unfold run_ops. revert h b.
  induction ops as [|op ops IH]; intros h b Hinv; [done|].
  pose proof (apply_op_priority_ordered h b op Hinv) as Hstep.
  cbn [foldl].
  destruct (apply_op (h, b) op) as [h1 b1]. by apply IH.
Qed.

(** ** References follow the order of the adds *)

(** Apart from its amount an order in the store never changes. *)
Lemma run_ops_store_stable ops h b r o :
  h !! r = Some o →
  ∃ o', (run_ops h b ops).1 !! r = Some o'
        ∧ order_id o' = order_id o ∧ symbol o' = symbol o
        ∧ side o' = side o ∧ price o' = price o.
Proof.
  unfold run_ops. revert h b o.
  induction ops as [|op ops IH]; intros h b o Hr; [by exists o|].
  cbn [foldl].
  assert (∃ o1, (apply_op (h, b) op).1 !! r = Some o1
                ∧ order_id o1 = order_id o ∧ symbol o1 = symbol o
                ∧ side o1 = side o ∧ price o1 = price o) as (o1 & Hr1 & Hsame).
  { destruct op as [o0|oid|oid v]; simpl.
    - exists o. split; [|done]. rewrite lookup_app_l; [done|].
      by eapply lookup_lt_Some.
    - by exists o.
    - unfold OrderBook.update_order_amount.
      destruct (_order_index b !! oid) as [r'|]; simpl; [|by exists o].
      unfold set_amount. destruct (decide (r' = r)) as [->|Hne].
      + eexists. rewrite list_lookup_insert_eq by by eapply lookup_lt_Some.
        split; [done|]. unfold deref. rewrite Hr. done.
      + exists o. by rewrite list_lookup_insert_ne. }
  destruct (apply_op (h, b) op) as [h1 b1]. simpl in Hr1.
  destruct (IH h1 b1 o1 Hr1) as (o' & Hr' & Hsame').
  exists o'. split; [done|].
  destruct Hsame as (? & ? & ? & ?). destruct Hsame' as (? & ? & ? & ?).
  repeat split; congruence.
Qed.

(** The order added by the [k]-th operation lives under the reference
    that counts the adds before it: a smaller reference is an earlier
    add. *)
Lemma run_ops_creation_order ops h b k o :
  ops !! k = Some (OpAdd o) →
  ∃ o', (run_ops h b ops).1 !! (length h + adds_before ops k)%nat = Some o'
        ∧ order_id o' = order_id o ∧ symbol o' = symbol o
        ∧ side o' = side o ∧ price o' = price o.
Proof.
  revert h b k. induction ops as [|op ops IH]; intros h b k Hk; [done|].
  destruct k as [|k]; simpl in Hk.
  - injection Hk as ->. unfold adds_before; simpl. rewrite Nat.add_0_r.
    change (run_ops h b (OpAdd o :: ops))
      with (run_ops (h ++ [o]) (OrderBook.add_order (h ++ [o]) b (length h)) ops).
    apply run_ops_store_stable. by rewrite list_lookup_middle.
  - assert (length h + adds_before (op :: ops) (S k)
            = length (apply_op (h, b) op).1 + adds_before ops k)%nat as Hlen.
    { unfold adds_before. destruct op as [o1|oid|oid v]; simpl.
      - rewrite length_app. simpl. lia.
      - done.
      - unfold OrderBook.update_order_amount.
        destruct (_order_index b !! oid); simpl; by rewrite ?length_set_amount. }
    destruct (IH (apply_op (h, b) op).1 (apply_op (h, b) op).2 k Hk)
      as (o' & Ho' & Hsame).
    unfold run_ops in Ho' |- *. rewrite <-surjective_pairing in Ho'.
    cbn [foldl]. exists o'. by rewrite Hlen.
Qed.

(** C5. After any sequence of [add_order], [remove_order] and
    [update_order_amount] calls on a new book, [get_orders BUY] lists BUY
    orders with non-decreasing prices, [get_orders SELL] lists SELL
    orders with non-increasing prices, and two orders of equal price
    appear in the order in which they were added (the one created first
    comes first). *)
Theorem get_orders_price_time_priority
    (h0 : list Order) (sym : string) (ops : list book_op) :
  let '(h, b) := run_ops h0 (OrderBook.init sym) ops in
  (∀ i j oi oj, (i < j)%nat →
     view h (OrderBook.get_orders b BUY) !! i = Some oi →
     view h (OrderBook.get_orders b BUY) !! j = Some oj →
     side oi = BUY ∧ side oj = BUY ∧ price oi ≤ price oj)
  ∧ (∀ i j oi oj, (i < j)%nat →
     view h (OrderBook.get_orders b SELL) !! i = Some oi →
     view h (OrderBook.get_orders b SELL) !! j = Some oj →
     side oi = SELL ∧ side oj = SELL ∧ price oj ≤ price oi)
  ∧ (∀ s i j ri rj, (i < j)%nat →
     OrderBook.get_orders b s !! i = Some ri →
     OrderBook.get_orders b s !! j = Some rj →
     price (deref h ri) = price (deref h rj) →
     (ri < rj)%nat).
Proof.
  pose proof (run_ops_priority_ordered h0 (OrderBook.init sym) ops
                (init_priority_ordered h0 sym)) as Hinv.
  destruct (run_ops h0 (OrderBook.init sym) ops) as [h b].
  destruct Hinv as (Hbuy & Hsell & Hb & Hs). simpl in *.
  rewrite Forall_forall in Hb. rewrite Forall_forall in Hs.
  split; [|split].
  - intros i j oi oj Hij Hi Hj.
    apply list_lookup_fmap_Some_1 in Hi as (ri & -> & Hi).
    apply list_lookup_fmap_Some_1 in Hj as (rj & -> & Hj).
    pose proof (sorted_lookup _ _ _ _ _ _ Hbuy Hij Hi Hj) as He.
    apply list_elem_of_lookup_2, Hb in Hi. apply list_elem_of_lookup_2, Hb in Hj.
    unfold earlier, buy_key in He. repeat split; [tauto..|lia].
  - intros i j oi oj Hij Hi Hj.
    apply list_lookup_fmap_Some_1 in Hi as (ri & -> & Hi).
    apply list_lookup_fmap_Some_1 in Hj as (rj & -> & Hj).
    pose proof (sorted_lookup _ _ _ _ _ _ Hsell Hij Hi Hj) as He.
    apply list_elem_of_lookup_2, Hs in Hi. apply list_elem_of_lookup_2, Hs in Hj.
    unfold earlier, sell_key in He. repeat split; [tauto..|lia].
  - intros s i j ri rj Hij Hi Hj Hp.
    destruct s; simpl in *.
    + pose proof (sorted_lookup _ _ _ _ _ _ Hbuy Hij Hi Hj) as He.
      unfold earlier, buy_key in He. lia.
    + pose proof (sorted_lookup _ _ _ _ _ _ Hsell Hij Hi Hj) as He.
      unfold earlier, sell_key in He. lia.
Qed.

(** A small concrete run: three BUY orders, two at the same price. *)
Example run_ops_fifo_at_level :
  let '(h, b) :=
    run_ops [] (OrderBook.init "JPM")
      [OpAdd (mkOrder 1 "JPM" BUY 10 20); OpAdd (mkOrder 2 "JPM" BUY 10 20);
       OpAdd (mkOrder 3 "JPM" BUY 5 19); OpUpdate 1 4; OpRemove 3] in
  view h (OrderBook.get_orders b BUY)
  = [mkOrder 1 "JPM" BUY 4 20; mkOrder 2 "JPM" BUY 10 20].
Proof. vm_compute. reflexivity. Qed.

(** ** Amounts stay positive *)

Lemma positive_in_store h r : 0 < amount (deref h r) → (r < length h)%nat.
Proof.
  unfold deref. intros Hpos.
  destruct (h !! r) eqn:Hr; simpl in Hpos; [|lia].
  by eapply lookup_lt_Some.
Qed.

Lemma discard_subset h r l x : x ∈ SortedList.discard h r l → x ∈ l.
Proof.
  revert x. apply Forall_forall, discard_Forall, Forall_forall. auto.
Qed.

Lemma remove_order_shrinks h b oid :
  let b' := (OrderBook.remove_order h b oid).2 in
  (∀ x, x ∈ _buy_orders b' → x ∈ _buy_orders b)
  ∧ (∀ x, x ∈ _sell_orders b' → x ∈ _sell_orders b)
  ∧ (∀ k, _order_index b !! k = None → _order_index b' !! k = None).
Proof.
  unfold OrderBook.remove_order.
  destruct (_order_index b !! oid) as [r|] eqn:Hidx; simpl; [|done].
  assert (∀ k, _order_index b !! k = None →
               delete oid (_order_index b) !! k = None) as Hdel.
  { intros k Hk. rewrite lookup_delete. by destruct (decide (oid = k)). }
  destruct (side (deref h r)); simpl; repeat split;
    eauto using discard_subset.
Qed.

Section executor_positive.
Import TradeExecutor.

Lemma step_shrinks r s :
  (∀ x, x ∈ _buy_orders (ex_book (step r s)) → x ∈ _buy_orders (ex_book s))
  ∧ (∀ x, x ∈ _sell_orders (ex_book (step r s)) → x ∈ _sell_orders (ex_book s))
  ∧ (∀ k, _order_index (ex_book s) !! k = None →
          _order_index (ex_book (step r s)) !! k = None).
Proof.
  unfold step. destruct (_ =? 0); simpl; [|done].
  apply remove_order_shrinks.
Qed.

Lemma step_positive r s x :
  0 < ex_remaining s →
  0 < amount (deref (ex_heap s) r) →
  0 < amount (deref (ex_heap s) x) →
  0 < amount (deref (ex_heap (step r s)) x).
Proof.
  intros Hrem Hr Hx. unfold step.
  destruct (Z.eqb_spec
    (amount (deref (ex_heap s) r)
     - Z.min (amount (deref (ex_heap s) r)) (ex_remaining s)) 0) as [Hz|Hnz];
    simpl; [done|].
  unfold OrderBook.update_order_amount.
  destruct (_order_index (ex_book s) !! _) as [r'|]; simpl; [|done].
  rewrite (proj2 (proj2 (proj2 (proj2 (deref_set_amount _ _ _ _))))).
  destruct (decide _); lia.
Qed.

Lemma loop_shrinks orders s :
  (∀ x, x ∈ _buy_orders (ex_book (loop orders s)) → x ∈ _buy_orders (ex_book s))
  ∧ (∀ x, x ∈ _sell_orders (ex_book (loop orders s)) → x ∈ _sell_orders (ex_book s))
  ∧ (∀ k, _order_index (ex_book s) !! k = None →
          _order_index (ex_book (loop orders s)) !! k = None).
Proof.
  revert s. induction orders as [|r rest IH]; intros s; simpl; [done|].
  destruct (_ <=? 0); [done|].
  destruct (IH (step r s)) as (Hb & Hs & Hi).
  destruct (step_shrinks r s) as (Hb1 & Hs1 & Hi1).
  repeat split; auto.
Qed.

Lemma loop_positive orders s x :
  (∀ r, r ∈ orders → 0 < amount (deref (ex_heap s) r)) →
  0 < amount (deref (ex_heap s) x) →
  0 < amount (deref (ex_heap (loop orders s)) x).
Proof.
  revert s. induction orders as [|r rest IH]; intros s Hall Hx; simpl; [done|].
  destruct (Z.leb_spec (ex_remaining s) 0) as [|Hrem]; [done|].
  assert (0 < amount (deref (ex_heap s) r)) as Hr by (apply Hall; left).
  apply IH; [|by apply step_positive].
  intros r' Hr'. apply step_positive; [done..|]. apply Hall. by right.
Qed.

Lemma resting_shrinks (b b' : OrderBook) :
  (∀ x, x ∈ _buy_orders b' → x ∈ _buy_orders b) →
  (∀ x, x ∈ _sell_orders b' → x ∈ _sell_orders b) →
  ∀ x, x ∈ resting b' → x ∈ resting b.
Proof.
  intros Hb Hs x. unfold resting. rewrite !elem_of_app. intros [Hx|Hx]; auto.
Qed.

Lemma get_orders_resting b s x : x ∈ OrderBook.get_orders b s → x ∈ resting b.
Proof. unfold resting. rewrite elem_of_app. destruct s; simpl; auto. Qed.

(** [execute] leaves every positive amount in the store positive and
    adds nothing to the book. *)
Lemma execute_positive uuid now h b s a :
  amounts_positive h b →
  let '(_, h', b') := execute uuid now h b s a in
  (∀ x, 0 < amount (deref h x) → 0 < amount (deref h' x))
  ∧ (∀ x, x ∈ resting b' → x ∈ resting b).
Proof.
  intros Hpos. unfold execute. simpl. split.
  - intros x Hx. apply loop_positive; simpl; [|done].
    intros r Hr. by apply Hpos, get_orders_resting with s.
  - destruct (loop_shrinks (OrderBook.get_orders b s) (mkExec h b [] a 0 0))
      as (Hb & Hs & _).
    by apply resting_shrinks.
Qed.

End executor_positive.

Lemma get_or_create_positive st sym :
  all_positive st →
  all_positive (OrderManagement._get_or_create_order_book st sym).2
  ∧ amounts_positive (heap st) (OrderManagement._get_or_create_order_book st sym).1.
Proof.
  intros Hall. unfold OrderManagement._get_or_create_order_book.
  destruct (_order_books st !! sym) as [bk|] eqn:Hbk; simpl.
  - split; [done|]. by apply (Hall sym).
  - assert (amounts_positive (heap st) (OrderBook.init sym)) as Hinit.
    { intros r Hr. by apply elem_of_nil in Hr. }
    split; [|done]. intros sym' b'. simpl.
    rewrite lookup_insert. destruct (decide (sym = sym')) as [->|Hne].
    + by intros [= <-].
    + apply Hall.
Qed.

Lemma add_order_resting h b r x :
  x ∈ resting (OrderBook.add_order h b r) → x = r ∨ x ∈ resting b.
Proof.
  unfold OrderBook.add_order, resting.
  destruct (side (deref h r)); simpl;
    rewrite !elem_of_app, add_perm, elem_of_cons; tauto.
Qed.

Lemma exec_positive st c :
  admissible c → all_positive st → all_positive (exec st c).
Proof.
  intros Hadm Hall.
  destruct c as [oid sym s amt prc|oid|sym s amt|uuid now sym s amt]; simpl.
  - unfold OrderManagement.add_order.
    destruct (_orders st !! oid); simpl; [done|].
    set (h' := heap st ++ [mkOrder oid sym s amt prc]).
    set (st1 := mkOM h' (_order_books st) (_orders st)).
    assert (∀ x, 0 < amount (deref (heap st) x) → 0 < amount (deref h' x)) as Hold.
    { intros x Hx. unfold h'. by rewrite deref_alloc_old by by apply positive_in_store. }
    assert (all_positive st1) as Hall1.
    { intros sym' b' Hb' r Hr. apply Hold. by apply (Hall sym' b'). }
    destruct (get_or_create_positive st1 sym Hall1) as [Hall2 Hbk].
    pose proof (get_or_create_heap st1 sym) as [Hheap _].
    destruct (OrderManagement._get_or_create_order_book st1 sym) as [bk st2].
    simpl in *. intros sym' b'. simpl.
    rewrite lookup_insert. destruct (decide (sym = sym')) as [->|Hne].
    + intros [= <-] r Hr. apply add_order_resting in Hr as [->|Hr].
      * unfold h'. rewrite deref_alloc_new. simpl. exact Hadm.
      * by apply Hbk.
    + intros Hb'. pose proof (Hall2 sym' b' Hb') as Hp.
      by rewrite Hheap in Hp.
  - unfold OrderManagement.remove_order.
    destruct (_orders st !! oid) as [r|]; [|done].
    intros sym' b'. simpl.
    destruct (_order_books st !! symbol (deref (heap st) r)) as [bk|] eqn:Hbk;
      [|apply Hall].
    rewrite lookup_insert.
    destruct (decide (symbol (deref (heap st) r) = sym')) as [<-|Hne]; [|apply Hall].
    intros [= <-] x Hx. apply (Hall _ _ Hbk).
    destruct (remove_order_shrinks (heap st) bk oid) as (Hb & Hs & _).
    by eapply resting_shrinks.
  - unfold OrderManagement.calculate_price.
    pose proof (get_or_create_positive st sym Hall) as [Hall1 _].
    by destruct (OrderManagement._get_or_create_order_book st sym).
  - unfold OrderManagement.place_trade.
    pose proof (get_or_create_positive st sym Hall) as [Hall1 Hbk].
    pose proof (get_or_create_heap st sym) as [Hheap _].
    destruct (OrderManagement._get_or_create_order_book st sym) as [bk st1].
    cbn [fst snd] in *. rewrite <-Hheap in Hbk.
    pose proof (execute_positive uuid now (heap st1) bk s amt Hbk) as Hex.
    destruct (TradeExecutor.execute uuid now (heap st1) bk s amt) as [[t h'] b'].
    destruct Hex as [Hkeep Hsub]. simpl.
    intros sym' b''. simpl.
    rewrite lookup_insert. destruct (decide (sym = sym')) as [->|Hne].
    + intros [= <-] x Hx. by apply Hkeep, Hbk, Hsub.
    + intros Hb'' x Hx. by apply Hkeep, (Hall1 sym' b'').
Qed.

Lemma reachable_positive cs :
  Forall admissible cs → all_positive (foldl exec OrderManagement.init cs).
Proof.
  assert (∀ st, all_positive st → Forall admissible cs →
                all_positive (foldl exec st cs)) as Hgen.
  { induction cs as [|c cs IH]; intros st Hst Hadm; [done|].
    apply Forall_cons in Hadm as [Hc Hcs]. cbn [foldl].
    apply IH; [|done]. by apply exec_positive. }
  apply Hgen. intros sym b Hb. simpl in Hb. by rewrite lookup_empty in Hb.
Qed.

(** ** Exhausted orders leave a well-formed book *)

Lemma discard_NoDup h r l : NoDup l → NoDup (SortedList.discard h r l).
Proof.
  induction 1 as [|x l Hx Hl IH]; simpl; [constructor|].
  destruct (decide _); [done|].
  constructor; [|done]. intros Hin. by apply Hx, discard_subset with h r.
Qed.

(** When only [r] itself carries [r]'s value, [discard] removes exactly
    [r]. *)
Lemma discard_elem h r l :
  NoDup l →
  (∀ x, x ∈ l → deref h x = deref h r → x = r) →
  ∀ y, y ∈ SortedList.discard h r l ↔ y ∈ l ∧ y ≠ r.
Proof.
  induction 1 as [|x l Hx Hl IH]; intros Huniq y; simpl.
  - rewrite elem_of_nil. tauto.
  - assert (∀ z, z ∈ l → deref h z = deref h r → z = r) as Huniq'.
    { intros z Hz. apply Huniq. by right. }
    destruct (decide (deref h x = deref h r)) as [Heq|Hne].
    + assert (x = r) as -> by (apply Huniq; [left|done]).
      rewrite elem_of_cons. split.
      * intros Hy. split; [by right|]. by intros ->.
      * intros [[->|Hy] Hyr]; done.
    + assert (x ≠ r) by (by intros ->).
      rewrite !elem_of_cons, IH by done. split.
      * intros [->|[Hy Hyr]]; auto.
      * intros [[->|Hy] Hyr]; auto.
Qed.

Lemma wf_same_id h b r1 r2 :
  book_wf h b → r1 ∈ resting b → r2 ∈ resting b →
  order_id (deref h r1) = order_id (deref h r2) → r1 = r2.
Proof.
  intros (_ & _ & _ & Hidx) H1 H2 Hid.
  apply Hidx in H1. apply Hidx in H2. rewrite Hid in H1. congruence.
Qed.

Lemma remove_order_wf h b r :
  book_wf h b → r ∈ resting b →
  let b' := (OrderBook.remove_order h b (order_id (deref h r))).2 in
  book_wf h b'
  ∧ (∀ y, y ∈ resting b' ↔ y ∈ resting b ∧ y ≠ r)
  ∧ _order_index b' !! order_id (deref h r) = None.
Proof.
  intros Hwf Hr.
  pose proof Hwf as (Hnd & Hbuy & Hsell & Hidx).
  assert (∀ x, x ∈ resting b → deref h x = deref h r → x = r) as Huniq.
  { intros x Hx Hv. apply (wf_same_id h b); [done..|]. by rewrite Hv. }
  unfold resting in Hnd, Hr, Huniq.
  apply NoDup_app in Hnd as (Hndb & Hdisj & Hnds).
  assert (∀ y, y ∈ resting b → y ≠ r →
               delete (order_id (deref h r)) (_order_index b)
                 !! order_id (deref h y) = Some y) as Hkeep.
  { intros y Hy Hne. rewrite lookup_delete_ne; [by apply Hidx|].
    intros Hid. apply Hne. symmetry. by apply (wf_same_id h b). }
  unfold OrderBook.remove_order. rewrite (Hidx r) by done.
  apply elem_of_app in Hr.
  destruct (side (deref h r)) eqn:Hside; simpl.
  - assert (r ∈ _buy_orders b) as Hrb.
    { destruct Hr as [|Hr]; [done|]. apply Hsell in Hr. congruence. }
    assert (∀ y, y ∈ SortedList.discard h r (_buy_orders b) ++ _sell_orders b
                 ↔ y ∈ _buy_orders b ++ _sell_orders b ∧ y ≠ r) as Hmem.
    { intros y. rewrite !elem_of_app, discard_elem; [|done|].
      - split; [|tauto]. intros [[? ?]|Hy]; [tauto|].
        split; [tauto|]. intros ->. by apply (Hdisj r).
      - intros x Hx. apply Huniq. rewrite elem_of_app. by left. }
    split; [|split; [exact Hmem|apply lookup_delete_eq]].
    unfold book_wf, resting; simpl. repeat split.
    + apply NoDup_app. split; [by apply discard_NoDup|]. split; [|done].
      intros x Hx. by apply Hdisj, discard_subset with h r.
    + intros x Hx. by apply Hbuy, discard_subset with h r.
    + done.
    + intros y Hy. apply Hmem in Hy as [Hy Hne]. by apply Hkeep.
  - assert (r ∈ _sell_orders b) as Hrs.
    { destruct Hr as [Hr|]; [|done]. apply Hbuy in Hr. congruence. }
    assert (∀ y, y ∈ _buy_orders b ++ SortedList.discard h r (_sell_orders b)
                 ↔ y ∈ _buy_orders b ++ _sell_orders b ∧ y ≠ r) as Hmem.
    { intros y. rewrite !elem_of_app, discard_elem; [|done|].
      - split; [|tauto]. intros [Hy|[? ?]]; [|tauto].
        split; [tauto|]. intros ->. by apply (Hdisj r).
      - intros x Hx. apply Huniq. rewrite elem_of_app. by right. }
    split; [|split; [exact Hmem|apply lookup_delete_eq]].
    unfold book_wf, resting; simpl. repeat split.
    + apply NoDup_app. split; [done|]. split; [|by apply discard_NoDup].
      intros x Hx Hx'. apply (Hdisj x Hx). by apply discard_subset with h r.
    + done.
    + intros x Hx. by apply Hsell, discard_subset with h r.
    + intros y Hy. apply Hmem in Hy as [Hy Hne]. by apply Hkeep.
Qed.

Lemma set_amount_wf h b r v : book_wf h b → book_wf (set_amount h r v) b.
Proof.
  intros (Hnd & Hbuy & Hsell & Hidx). unfold book_wf.
  repeat split; [done|..]; intros x Hx.
  - rewrite (proj1 (proj2 (proj2 (deref_set_amount h r v x)))). auto.
  - rewrite (proj1 (proj2 (proj2 (deref_set_amount h r v x)))). auto.
  - rewrite (proj1 (deref_set_amount h r v x)). auto.
Qed.

Section executor_wf.
Import TradeExecutor.

Lemma step_wf r s :
  book_wf (ex_heap s) (ex_book s) → r ∈ resting (ex_book s) →
  book_wf (ex_heap (step r s)) (ex_book (step r s))
  ∧ (∀ y, y ∈ resting (ex_book s) → y ≠ r → y ∈ resting (ex_book (step r s)))
  ∧ (amount (deref (ex_heap s) r) ≤ ex_remaining s →
     (r ∉ resting (ex_book (step r s)))
     ∧ _order_index (ex_book (step r s)) !! order_id (deref (ex_heap s) r) = None).
Proof.
  intros Hwf Hr. unfold step.
  destruct (Z.eqb_spec
    (amount (deref (ex_heap s) r)
     - Z.min (amount (deref (ex_heap s) r)) (ex_remaining s)) 0) as [Hz|Hnz];
    simpl.
  - destruct (remove_order_wf _ _ r Hwf Hr) as (Hwf' & Hmem & Hgone).
    split; [done|]. split.
    + intros y Hy Hne. by apply Hmem.
    + intros _. split; [|done]. intros Hin. by apply Hmem in Hin as [_ ?].
  - split; [|split; [done|lia]].
    unfold OrderBook.update_order_amount.
    destruct (_order_index (ex_book s) !! _); simpl; [|done].
    by apply set_amount_wf.
Qed.

Lemma fills_of_ids h l a f :
  f ∈ fills_of (view h l) a →
  ∃ r, r ∈ l ∧ fill_order_id f = order_id (deref h r).
Proof.
  revert a. induction l as [|r l IH]; intros a; simpl.
  - by rewrite elem_of_nil.
  - destruct (a <=? 0); [by rewrite elem_of_nil|].
    rewrite elem_of_cons. intros [->|Hf].
    + exists r. split; [left|done].
    + destruct (IH _ Hf) as (r' & Hr' & Hid). exists r'. split; [by right|done].
Qed.

Lemma loop_wf orders s :
  book_wf (ex_heap s) (ex_book s) →
  NoDup orders →
  (∀ r, r ∈ orders → r ∈ resting (ex_book s)) →
  book_wf (ex_heap (loop orders s)) (ex_book (loop orders s)).
Proof.
  revert s. induction orders as [|r rest IH]; intros s Hwf Hnd Hsub; simpl; [done|].
  destruct (_ <=? 0); [done|].
  apply NoDup_cons in Hnd as [Hr Hnd].
  destruct (step_wf r s Hwf) as (Hwf' & Hkeep & _); [apply Hsub; left|].
  apply IH; [done..|].
  intros r' Hr'. apply Hkeep; [apply Hsub; by right|]. by intros ->.
Qed.

(** An order whose fill equals its amount is gone from both sides and
    from the index when the loop ends. *)
Lemma loop_exhausted orders s r f :
  book_wf (ex_heap s) (ex_book s) →
  NoDup orders →
  (∀ x, x ∈ orders → x ∈ resting (ex_book s)) →
  r ∈ orders →
  f ∈ fills_of (view (ex_heap s) orders) (ex_remaining s) →
  fill_order_id f = order_id (deref (ex_heap s) r) →
  filled_amount f = amount (deref (ex_heap s) r) →
  (r ∉ resting (ex_book (loop orders s)))
  ∧ _order_index (ex_book (loop orders s)) !! fill_order_id f = None.
Proof.
  revert s. induction orders as [|r0 rest IH];
    intros s Hwf Hnd Hsub Hr Hf Hid Hamt; [by apply elem_of_nil in Hr|].
  simpl in Hf |- *.
  destruct (Z.leb_spec (ex_remaining s) 0) as [|Hrem];
    [by apply elem_of_nil in Hf|].
  apply NoDup_cons in Hnd as [Hr0 Hnd].
  assert (r0 ∈ resting (ex_book s)) as Hr0in by (apply Hsub; left).
  destruct (step_wf r0 s Hwf Hr0in) as (Hwf' & Hkeep & Hgone).
  destruct (loop_shrinks rest (step r0 s)) as (Hb & Hs & Hi).
  destruct (step_fields r0 s) as (_ & Hrem' & _).
  apply elem_of_cons in Hf as [->|Hf]; simpl in Hid, Hamt.
  - assert (r = r0) as ->.
    { apply (wf_same_id _ _ _ _ Hwf); [by apply Hsub|done|done]. }
    destruct Hgone as [Hout Hnone]; [lia|].
    split; [|by apply Hi].
    intros Hin. apply Hout. by eapply resting_shrinks.
  - assert (0 < ex_remaining s - Z.min (amount (deref (ex_heap s) r0)) (ex_remaining s))
      as Hleft.
    { destruct (Z.leb_spec
        (ex_remaining s - Z.min (amount (deref (ex_heap s) r0)) (ex_remaining s)) 0);
        [|done].
      rewrite fills_of_nonpos in Hf by done. by apply elem_of_nil in Hf. }
    assert (ex_heap (step r0 s) = ex_heap s) as Hheap.
    { destruct (step_heap r0 s) as [|Hzero]; [done|]. lia. }
    apply elem_of_cons in Hr as [->|Hr].
    + destruct (fills_of_ids _ _ _ _ Hf) as (r' & Hr' & Hid').
      assert (r' = r0) as ->.
      { apply (wf_same_id _ _ _ _ Hwf); [apply Hsub; by right|done|congruence]. }
      done.
    + apply IH;
        [done|done| |done|by rewrite Hheap, Hrem'|by rewrite Hheap..].
      intros x Hx. apply Hkeep; [apply Hsub; by right|]. by intros ->.
Qed.

Lemma get_orders_NoDup h b s : book_wf h b → NoDup (OrderBook.get_orders b s).
Proof.
  intros (Hnd & _). unfold resting in Hnd.
  apply NoDup_app in Hnd as (? & _ & ?). by destruct s.
Qed.

(** No order rests with a zero or negative amount: from the empty
    system, whatever sequence of public operations with admissible
    inputs is run, every resting amount is positive.  And on a
    well-formed book with positive amounts [execute] keeps those two
    properties and, for every fill that equals the whole amount of the
    order it fills, leaves that order out of both sides and out of the
    index: [get_orders] omits it and [get_order] finds nothing under its
    id. *)
Theorem exhausted_orders_vanish
    (uuid : string) (now : Z) (h : list Order) (b : OrderBook)
    (s : Side) (a : Z) :
  book_wf h b →
  amounts_positive h b →
  (∀ cs, Forall admissible cs →
         all_positive (foldl exec OrderManagement.init cs))
  ∧ let '(t, h', b') := execute uuid now h b s a in
    amounts_positive h' b'
    ∧ book_wf h' b'
    ∧ ∀ f r,
        f ∈ order_fills t →
        r ∈ OrderBook.get_orders b s →
        fill_order_id f = order_id (deref h r) →
        filled_amount f = amount (deref h r) →
        (r ∉ OrderBook.get_orders b' BUY)
        ∧ (r ∉ OrderBook.get_orders b' SELL)
        ∧ OrderBook.get_order b' (order_id (deref h r)) = None.
Proof.
  intros Hwf Hpos. split; [apply reachable_positive|].
  pose proof (execute_positive uuid now h b s a Hpos) as Hex.
  pose proof (execute_trade uuid now h b s a) as (Hfills & _).
  assert (∀ x, x ∈ OrderBook.get_orders b s → x ∈ resting b) as Hsub
    by (intros x; apply get_orders_resting).
  pose proof (loop_wf (OrderBook.get_orders b s) (mkExec h b [] a 0 0)
                Hwf (get_orders_NoDup h b s Hwf) Hsub) as Hwf'.
  pose proof (λ r f, loop_exhausted (OrderBook.get_orders b s)
                (mkExec h b [] a 0 0) r f
                Hwf (get_orders_NoDup h b s Hwf) Hsub) as Hgone.
  unfold execute in *. simpl in *.
  destruct Hex as [Hkeep Hshrink].
  split; [|split; [done|]].
  - intros x Hx. by apply Hkeep, Hpos, Hshrink.
  - intros f r Hf Hr Hid Hamt. rewrite Hfills in Hf.
    destruct (Hgone r f Hr Hf Hid Hamt) as [Hout Hnone].
    unfold resting in Hout. rewrite elem_of_app in Hout.
    unfold OrderBook.get_order. rewrite <-Hid. tauto.
Qed.

Lemma exhausted_orders_vanish_witness :
  let h := [mkOrder 1 "JPM" BUY 20 20; mkOrder 4 "JPM" BUY 10 21] in
  let b := mkOrderBook "JPM" [0; 1]%nat [] (<[1 := 0%nat]> (<[4 := 1%nat]> ∅)) in
  (∀ cs, Forall admissible cs →
         all_positive (foldl exec OrderManagement.init cs))
  ∧ let '(t, h', b') := execute "t" 0 h b BUY 22 in
    amounts_positive h' b'
    ∧ book_wf h' b'
    ∧ ∀ f r,
        f ∈ order_fills t →
        r ∈ OrderBook.get_orders b BUY →
        fill_order_id f = order_id (deref h r) →
        filled_amount f = amount (deref h r) →
        (r ∉ OrderBook.get_orders b' BUY)
        ∧ (r ∉ OrderBook.get_orders b' SELL)
        ∧ OrderBook.get_order b' (order_id (deref h r)) = None.
Proof.
  apply (exhausted_orders_vanish "t" 0
           [mkOrder 1 "JPM" BUY 20 20; mkOrder 4 "JPM" BUY 10 21]
           (mkOrderBook "JPM" [0; 1]%nat [] (<[1 := 0%nat]> (<[4 := 1%nat]> ∅)))
           BUY 22).
  - unfold book_wf, resting; simpl. repeat split.
    + apply NoDup_cons. split; [|apply NoDup_singleton].
      intros Hin. by apply list_elem_of_singleton in Hin.
    + intros r Hr.
      repeat (apply elem_of_cons in Hr as [->|Hr]; [reflexivity|]).
      by apply elem_of_nil in Hr.
    + intros r Hr. by apply elem_of_nil in Hr.
    + intros r Hr.
      repeat (apply elem_of_cons in Hr as [->|Hr]; [vm_compute; reflexivity|]).
      by apply elem_of_nil in Hr.
  - intros r Hr. unfold resting in Hr; simpl in Hr.
    repeat (apply elem_of_cons in Hr as [->|Hr]; [vm_compute; reflexivity|]).
    by apply elem_of_nil in Hr.
Defined.

End executor_wf.

(** C6. A trade that exactly exhausts a resting order can leave it in the
    book.  The run: an order 1 of 10 at 20, a trade of 5 (after which the
    facade no longer knows id 1), a second order under id 1, of 3 at 20,
    which the facade accepts, and a trade of 5.  All inputs are
    admissible and every resting amount is positive before the last
    trade.  Its only fill takes 5 from the older order, first in
    priority, whose amount is 5; [execute] then asks the book to remove
    id 1, and the book's index leads to the newer object.  Afterwards the
    exhausted order is the one [get_orders] lists, with its amount still
    5, while the order that was not touched is gone and [get_order] finds
    nothing under the id. *)
Theorem exhausted_order_still_rests
    (uuid : string) (now : Z) (uuid' : string) (now' : Z) :
  let cs := [AddOrder 1 "JPM" BUY 10 20; PlaceTrade uuid now "JPM" BUY 5;
             AddOrder 1 "JPM" BUY 3 20] in
  let st := foldl exec OrderManagement.init cs in
  let '(trade, st') := OrderManagement.place_trade uuid' now' st "JPM" BUY 5 in
  Forall admissible cs
  ∧ all_positive st
  ∧ ∃ b b' r r',
      _order_books st !! "JPM" = Some b
      ∧ OrderBook.get_orders b BUY = [r; r']
      ∧ deref (heap st) r = mkOrder 1 "JPM" BUY 5 20
      ∧ deref (heap st) r' = mkOrder 1 "JPM" BUY 3 20
      ∧ order_fills trade = [mkOrderFill 1 5 20]
      ∧ _order_books st' !! "JPM" = Some b'
      ∧ OrderBook.get_orders b' BUY = [r]
      ∧ deref (heap st') r = mkOrder 1 "JPM" BUY 5 20
      ∧ OrderBook.get_order b' 1 = None.
Proof.
  intros cs st.
  assert (Forall admissible cs) as Hadm by (repeat constructor; simpl; lia).
  pose proof (reachable_positive cs Hadm) as Hpos.
  destruct (OrderManagement.place_trade uuid' now' st "JPM" BUY 5)
    as [trade st'] eqn:Htrade.
  split; [done|]. split; [exact Hpos|].
  vm_compute in Htrade. injection Htrade as <- <-.
  vm_compute. eexists _, _, _, _. repeat split; reflexivity.
Qed.

(** * Further properties of the code *)

(** ** Serialisation: fills, missing keys, bad sides *)

Lemma OrderFill_as_instance_inj (f1 f2 : OrderFill) :
  OrderFill_as_instance f1 = OrderFill_as_instance f2 → f1 = f2.
Proof.
  destruct f1, f2. unfold OrderFill_as_instance; simpl. by intros [= -> -> ->].
Qed.

(** [OrderFill.from_dict (fill.to_dict ())] gives the fill back. *)
Theorem OrderFill_from_dict_to_dict (f : OrderFill) :
  OrderFill_from_dict (OrderFill_to_dict f) = Return f.
Proof. by destruct f. Qed.

Lemma Side_of_value_Some v s : Side_of_value v = Some s ↔ v = Side_value s.
Proof.
  unfold Side_of_value. split.
  - repeat case_decide; intros [= <-]; by subst.
  - intros ->. by destruct s.
Qed.






(** The first missing key, in the order [order_id], [symbol], [side],
    [amount], [price], is the one the [KeyError] names, whatever the
    entries before it hold; for [amount] and [price] the ["side"] entry,
    which [Side(...)] reads before them, has to be one of the two
    texts. *)
Theorem from_dict_missing_key (data : gmap string pyval) :
  (data !! "order_id" = None → from_dict data = Raise (KeyError "order_id"))
  ∧ (is_Some (data !! "order_id") →
     data !! "symbol" = None → from_dict data = Raise (KeyError "symbol"))
  ∧ (is_Some (data !! "order_id") →
     is_Some (data !! "symbol") →
     data !! "side" = None → from_dict data = Raise (KeyError "side"))
  ∧ (∀ sd, is_Some (data !! "order_id") →
     is_Some (data !! "symbol") →
     data !! "side" = Some (PyStr (Side_value sd)) →
     data !! "amount" = None → from_dict data = Raise (KeyError "amount"))
  ∧ (∀ sd, is_Some (data !! "order_id") →
     is_Some (data !! "symbol") →
     data !! "side" = Some (PyStr (Side_value sd)) →
     is_Some (data !! "amount") →
     data !! "price" = None → from_dict data = Raise (KeyError "price")).
Proof.
  unfold from_dict, getitem. repeat split.
  - by intros ->.
  - by intros [? ->] ->.
  - by intros [? ->] [? ->] ->.
  - intros sd [? ->] [? ->] -> ->. by destruct sd.
  - intros sd [? ->] [? ->] -> [? ->] ->. by destruct sd.
Qed.

(** ** The calculator: saturation, price bounds, continuation *)

Section calculator_more.
Import PriceCalculator.

(** A request that reaches or exceeds what the orders hold is priced at
    the value of all of them. *)
Theorem calculate_saturates (orders : list Order) (a : Z) :
  Forall (λ o, 0 ≤ amount o) orders →
  total_amount orders ≤ a →
  calculate orders a = total_value orders.
Proof.
  intros Hall. revert a.
  induction Hall as [|o rest Ho Hrest IH]; intros a Ha; [done|].
  simpl in Ha |- *. rewrite calculate_cons.
  assert (0 ≤ total_amount rest) as Hnn.
  { clear -Hrest. induction Hrest; simpl; [done|]. unfold total_amount in *. lia. }
  destruct (Z.leb_spec a 0) as [Hle|Hgt].
  - assert (amount o = 0) as Hz by (unfold total_amount in *; lia).
    unfold total_amount in *.
    rewrite <-(IH 0) by lia. rewrite calculate_nonpos by lia. rewrite Hz. lia.
  - unfold total_amount in *. rewrite Z.min_l by lia. rewrite IH by lia. done.
Qed.

Lemma calculate_saturates_witness :
  calculate [mkOrder 1 "JPM" BUY 20 20; mkOrder 2 "JPM" BUY 10 21] 50
  = total_value [mkOrder 1 "JPM" BUY 20 20; mkOrder 2 "JPM" BUY 10 21].
Proof.
  apply (calculate_saturates
           [mkOrder 1 "JPM" BUY 20 20; mkOrder 2 "JPM" BUY 10 21] 50).
  - repeat constructor; simpl; lia.
  - vm_compute. discriminate.
Defined.

(** With every price between [lo] and [hi], the price of a request lies
    between [lo] and [hi] times the amount the walk actually takes. *)
Theorem calculate_between (orders : list Order) (a lo hi : Z) :
  Forall (λ o, 0 ≤ amount o ∧ lo ≤ price o ≤ hi) orders →
  0 ≤ a →
  lo * sum_filled (fills_of orders a) ≤ calculate orders a
  ∧ calculate orders a ≤ hi * sum_filled (fills_of orders a).
Proof.
  intros Hall. revert a.
  induction Hall as [|o rest [Hamt Hprc] _ IH]; intros a Ha.
  - rewrite calculate_nil. simpl. lia.
  - rewrite calculate_cons. simpl.
    destruct (Z.leb_spec a 0); simpl; [lia|].
    specialize (IH (a - Z.min (amount o) a)).
    assert (0 ≤ Z.min (amount o) a) by lia.
    nia.
Qed.

Lemma calculate_between_witness :
  let orders := [mkOrder 1 "JPM" BUY 20 20; mkOrder 4 "JPM" BUY 10 21] in
  20 * sum_filled (fills_of orders 22) ≤ calculate orders 22
  ∧ calculate orders 22 ≤ 21 * sum_filled (fills_of orders 22).
Proof.
  apply (calculate_between
           [mkOrder 1 "JPM" BUY 20 20; mkOrder 4 "JPM" BUY 10 21] 22 20 21).
  - repeat constructor; simpl; lia.
  - lia.
Defined.

Lemma remaining_after_cons o rest a :
  remaining_after (o :: rest) a
  = if a <=? 0 then o :: rest
    else if amount o <=? a then remaining_after rest (a - amount o)
    else mkOrder (order_id o) (symbol o) (side o) (amount o - a) (price o) :: rest.
Proof.
  simpl. destruct (Z.leb_spec a 0); [done|].
  destruct (Z.leb_spec (amount o) a).
  - rewrite Z.min_l by lia. by rewrite Z.sub_diag.
  - rewrite Z.min_r by lia.
    destruct (Z.eqb_spec (amount o - a) 0); [lia|done].
Qed.

Lemma total_amount_remaining orders a :
  total_amount (remaining_after orders a)
  = total_amount orders - sum_filled (fills_of orders a).
Proof.
  revert a. induction orders as [|o rest IH]; intros a; [done|].
  rewrite remaining_after_cons. simpl.
  destruct (Z.leb_spec a 0); simpl; [unfold total_amount; simpl; lia|].
  destruct (Z.leb_spec (amount o) a).
  - rewrite IH, Z.min_l by lia. unfold total_amount; simpl. lia.
  - rewrite Z.min_r by lia. rewrite fills_of_nonpos by lia.
    unfold total_amount; simpl. lia.
Qed.

(** Pricing [a] and then, on what that walk leaves, [b] adds up to
    pricing [a + b] at once. *)
Lemma calculate_continues (orders : list Order) (a b : Z) :
  0 ≤ a → 0 ≤ b →
  calculate orders a + calculate (remaining_after orders a) b
  = calculate orders (a + b).
Proof.
  revert a. induction orders as [|o rest IH]; intros a Ha Hb; [done|].
  rewrite remaining_after_cons.
  destruct (Z.leb_spec a 0) as [Hle|Hgt].
  - assert (a = 0) as -> by lia. by rewrite calculate_nonpos.
  - rewrite !(calculate_cons o rest).
    destruct (Z.leb_spec a 0); [lia|].
    destruct (Z.leb_spec (a + b) 0); [lia|].
    destruct (Z.leb_spec (amount o) a).
    + rewrite !Z.min_l by lia.
      rewrite <-Z.add_assoc, IH by lia. do 2 f_equal. lia.
    + rewrite (Z.min_r _ a) by lia. rewrite Z.sub_diag, (calculate_nonpos rest 0) by lia.
      rewrite calculate_cons. simpl.
      destruct (Z.leb_spec b 0).
      * assert (b = 0) as -> by lia. rewrite Z.add_0_r, Z.min_r by lia.
        rewrite Z.sub_diag, (calculate_nonpos rest 0) by lia. lia.
      * assert (Z.min (amount o) (a + b) = a + Z.min (amount o - a) b) as -> by lia.
        replace (a + b - (a + Z.min (amount o - a) b))
          with (b - Z.min (amount o - a) b) by lia.
        lia.
Qed.

Lemma calculate_continues_witness :
  let orders := [mkOrder 1 "JPM" BUY 20 20; mkOrder 4 "JPM" BUY 10 21] in
  calculate orders 22 + calculate (remaining_after orders 22) 8
  = calculate orders (22 + 8).
Proof.
  apply (calculate_continues
           [mkOrder 1 "JPM" BUY 20 20; mkOrder 4 "JPM" BUY 10 21] 22 8); lia.
Defined.

End calculator_more.

(** ** The executor: what a trade leaves behind *)

Section executor_more.
Import TradeExecutor.

Lemma view_same h h' l :
  (∀ x, x ∈ l → deref h' x = deref h x) → view h' l = view h l.
Proof.
  intros Hsame. unfold view. apply list_fmap_ext.
  intros i x Hx. apply Hsame. by eapply list_elem_of_lookup_2.
Qed.

Lemma wf_sides_disjoint h b s x :
  book_wf h b →
  x ∈ OrderBook.get_orders b s → x ∉ OrderBook.get_orders b (other_side s).
Proof.
  intros (Hnd & _) Hx Hx'. unfold resting in Hnd.
  apply NoDup_app in Hnd as (_ & Hdisj & _).
  destruct s; simpl in *; by apply (Hdisj x).
Qed.

Lemma wf_side h b s x :
  book_wf h b → x ∈ OrderBook.get_orders b s → side (deref h x) = s.
Proof. intros (_ & Hb & Hs & _) Hx. destruct s; simpl in Hx; auto. Qed.

(** On a well-formed book the side being traded is, at every iteration,
    exactly what is left of the snapshot. *)
Lemma loop_view orders s sd :
  book_wf (ex_heap s) (ex_book s) →
  OrderBook.get_orders (ex_book s) sd = orders →
  let fin := loop orders s in
  view (ex_heap fin) (OrderBook.get_orders (ex_book fin) sd)
    = remaining_after (view (ex_heap s) orders) (ex_remaining s)
  ∧ OrderBook.get_orders (ex_book fin) (other_side sd)
    = OrderBook.get_orders (ex_book s) (other_side sd)
  ∧ (∀ x, x ∈ OrderBook.get_orders (ex_book s) (other_side sd) →
          deref (ex_heap fin) x = deref (ex_heap s) x).
Proof.
  revert s. induction orders as [|r rest IH]; intros s Hwf Hsd.
  - simpl. by rewrite Hsd.
  - cbn [loop]. change (view (ex_heap s) (r :: rest))
      with (deref (ex_heap s) r :: view (ex_heap s) rest).
    cbn [remaining_after].
    destruct (Z.leb_spec (ex_remaining s) 0) as [Hstop|Hgo].
    { simpl. by rewrite Hsd. }
    assert (r ∈ OrderBook.get_orders (ex_book s) sd) as Hr by (rewrite Hsd; left).
    assert (r ∈ resting (ex_book s)) as Hrest by by eapply get_orders_resting.
    pose proof (wf_side _ _ _ _ Hwf Hr) as Hside.
    pose proof Hwf as (Hnd & _ & _ & Hidx).
    destruct (step_wf r s Hwf Hrest) as (Hwf' & _ & _).
    destruct (step_fields r s) as (_ & Hrem & _).
    pose proof (Hidx r Hrest) as Hir.
    revert Hwf' Hrem IH. unfold step.
    set (o := deref (ex_heap s) r) in *.
    destruct (Z.eqb_spec (amount o - Z.min (amount o) (ex_remaining s)) 0)
      as [Hz|Hnz]; cbn [ex_heap ex_book ex_remaining]; intros Hwf' Hrem IH.
    + (* the order is taken whole and removed *)
      set (s' := mkExec (ex_heap s)
                   (OrderBook.remove_order (ex_heap s) (ex_book s) (order_id o)).2
                   (ex_fills s ++ [mkOrderFill (order_id o)
                                     (Z.min (amount o) (ex_remaining s)) (price o)])
                   (ex_remaining s - Z.min (amount o) (ex_remaining s))
                   (ex_actual_filled s + Z.min (amount o) (ex_remaining s))
                   (ex_actual_price s + price o * Z.min (amount o) (ex_remaining s))).
      assert (OrderBook.get_orders (ex_book s') sd = rest
              ∧ OrderBook.get_orders (ex_book s') (other_side sd)
                = OrderBook.get_orders (ex_book s) (other_side sd)) as [Hsd' Hoth].
      { unfold s'; cbn [ex_book]. unfold OrderBook.remove_order.
        rewrite Hir. fold o. rewrite Hside.
        destruct sd; simpl in Hsd |- *; rewrite Hsd; simpl;
          by rewrite decide_True. }
      destruct (IH s' Hwf' Hsd') as (Hview & Hother & Hvals).
      split; [exact Hview|]. split; [by rewrite Hother|].
      intros x Hx. apply Hvals. by rewrite Hoth.
    + (* the order is taken in part; the request is used up *)
      assert (OrderBook.update_order_amount (ex_heap s) (ex_book s) (order_id o)
                (amount o - Z.min (amount o) (ex_remaining s))
              = (true, set_amount (ex_heap s) r
                         (amount o - Z.min (amount o) (ex_remaining s)))) as Hupd.
      { unfold OrderBook.update_order_amount. by rewrite Hir. }
      rewrite Hupd. cbn [snd].
      rewrite loop_done by (cbn [ex_remaining]; lia).
      cbn [ex_heap ex_book].
      assert (r < length (ex_heap s))%nat as Hlt.
      { destruct (decide (r < length (ex_heap s))%nat) as [|Hge]; [done|].
        exfalso. apply Hnz. unfold o, deref.
        rewrite (proj2 (lookup_ge_None _ _)) by lia. simpl. lia. }
      assert (r ∉ rest) as Hnotin.
      { pose proof (get_orders_NoDup _ _ sd Hwf) as Hnd'.
        rewrite Hsd in Hnd'. by apply NoDup_cons in Hnd' as [? _]. }
      split; [|split; [done|]].
      * rewrite Hsd.
        change (view ?h (r :: rest)) with (deref h r :: view h rest).
        rewrite deref_set_amount_eq, decide_True by done. fold o. f_equal.
        apply view_same. intros x Hx.
        rewrite deref_set_amount_eq, decide_False; [done|].
        intros [-> _]. done.
      * intros x Hx. rewrite deref_set_amount_eq, decide_False; [done|].
        intros [-> _]. by apply (wf_sides_disjoint _ _ sd r Hwf).
Qed.

Lemma execute_leaves'
    (uuid : string) (now : Z) (h : list Order) (b : OrderBook) (s : Side) (a : Z) :
  book_wf h b →
  let '(_, h', b') := execute uuid now h b s a in
  view h' (OrderBook.get_orders b' s)
    = remaining_after (view h (OrderBook.get_orders b s)) a
  ∧ view h' (OrderBook.get_orders b' (other_side s))
    = view h (OrderBook.get_orders b (other_side s)).
Proof.
  intros Hwf. unfold execute.
  destruct (loop_view (OrderBook.get_orders b s) (mkExec h b [] a 0 0) s Hwf eq_refl)
    as (Hview & Hother & Hvals).
  cbn [ex_heap ex_book ex_remaining] in *.
  split; [done|]. rewrite Hother. by apply view_same.
Qed.

(** On a well-formed book a trade leaves of the traded side what the
    walk leaves of the snapshot, and the other side as it was. *)
Theorem execute_leaves
    (uuid : string) (now : Z) (h : list Order) (b : OrderBook) (s : Side) (a : Z) :
  book_wf h b →
  let '(_, h', b') := execute uuid now h b s a in
  view h' (OrderBook.get_orders b' s)
    = remaining_after (view h (OrderBook.get_orders b s)) a
  ∧ view h' (OrderBook.get_orders b' (other_side s))
    = view h (OrderBook.get_orders b (other_side s)).
Proof. apply execute_leaves'. Qed.

End executor_more.

Lemma sample_book_wf : book_wf sample_heap sample_book.
Proof.
  unfold book_wf, resting, sample_book; simpl. repeat split.
  - apply (bool_decide_unpack _). by vm_compute.
  - intros r Hr.
    repeat (apply elem_of_cons in Hr as [->|Hr]; [reflexivity|]).
    by apply elem_of_nil in Hr.
  - intros r Hr.
    repeat (apply elem_of_cons in Hr as [->|Hr]; [reflexivity|]).
    by apply elem_of_nil in Hr.
  - intros r Hr.
    repeat (apply elem_of_cons in Hr as [->|Hr]; [vm_compute; reflexivity|]).
    by apply elem_of_nil in Hr.
Defined.

Lemma sample_book_positive : amounts_positive sample_heap sample_book.
Proof.
  intros r Hr. unfold resting, sample_book in Hr; simpl in Hr.
  repeat (apply elem_of_cons in Hr as [->|Hr]; [vm_compute; reflexivity|]).
  by apply elem_of_nil in Hr.
Defined.

Lemma sample_book_ordered : priority_ordered sample_heap sample_book.
Proof.
  unfold priority_ordered, sample_book, sample_heap; simpl.
  repeat split; repeat constructor; unfold earlier; simpl; lia.
Defined.

Section executor_aftermath.
Import TradeExecutor.

Lemma execute_leaves_witness :
  let '(_, h', b') := execute "t" 0 sample_heap sample_book BUY 22 in
  view h' (OrderBook.get_orders b' BUY)
    = remaining_after (view sample_heap (OrderBook.get_orders sample_book BUY)) 22
  ∧ view h' (OrderBook.get_orders b' (other_side BUY))
    = view sample_heap (OrderBook.get_orders sample_book (other_side BUY)).
Proof.
  apply (execute_leaves "t" 0 sample_heap sample_book BUY 22).
  exact sample_book_wf.
Defined.

(** On a well-formed book the amount resting on the traded side drops by
    exactly the amount of the trade; the other side keeps its amount. *)
Theorem execute_available
    (uuid : string) (now : Z) (h : list Order) (b : OrderBook) (s : Side) (a : Z) :
  book_wf h b →
  let '(t, h', b') := execute uuid now h b s a in
  available h' b' s = available h b s - trade_amount t
  ∧ available h' b' (other_side s) = available h b (other_side s).
Proof.
  intros Hwf.
  pose proof (execute_leaves' uuid now h b s a Hwf) as Hleaves.
  pose proof (execute_trade uuid now h b s a) as (_ & Hamt & _).
  destruct (execute uuid now h b s a) as [[t h'] b'].
  destruct Hleaves as [Hs Ho]. cbn [fst] in Hamt.
  unfold available. rewrite Hs, Ho, Hamt. split; [|done].
  apply total_amount_remaining.
Qed.

Lemma execute_available_witness :
  let '(t, h', b') := execute "t" 0 sample_heap sample_book BUY 22 in
  available h' b' BUY = available sample_heap sample_book BUY - trade_amount t
  ∧ available h' b' (other_side BUY)
    = available sample_heap sample_book (other_side BUY).
Proof.
  apply (execute_available "t" 0 sample_heap sample_book BUY 22).
  exact sample_book_wf.
Defined.

(** A request that is not positive, or a side with no orders, gives the
    zero trade and leaves store and book exactly as they were. *)
Theorem execute_nothing_to_do
    (uuid : string) (now : Z) (h : list Order) (b : OrderBook) (s : Side) (a : Z) :
  a ≤ 0 ∨ OrderBook.get_orders b s = [] →
  execute uuid now h b s a = (mkTrade uuid (book_symbol b) s 0 0 now [], h, b).
Proof.
  intros Hcase. unfold execute.
  assert (loop (OrderBook.get_orders b s) (mkExec h b [] a 0 0)
          = mkExec h b [] a 0 0) as ->; [|done].
  destruct Hcase as [Ha| ->]; [|done]. by apply loop_done.
Qed.

Lemma execute_nothing_to_do_witness :
  execute "t" 0 sample_heap sample_book BUY 0
  = (mkTrade "t" (book_symbol sample_book) BUY 0 0 0 [], sample_heap, sample_book).
Proof.
  apply (execute_nothing_to_do "t" 0 sample_heap sample_book BUY 0). left. lia.
Defined.

Lemma fills_of_lookup l a i f :
  fills_of l a !! i = Some f →
  ∃ o, l !! i = Some o
       ∧ fill_order_id f = order_id o
       ∧ fill_price f = price o
       ∧ (∃ q, 0 < q ∧ filled_amount f = Z.min (amount o) q)
       ∧ (S i < length (fills_of l a) → filled_amount f = amount o)%nat.
Proof.
  revert a i. induction l as [|o rest IH]; intros a i; simpl; [done|].
  destruct (Z.leb_spec a 0) as [|Hpos]; [done|].
  destruct i as [|i]; simpl.
  - intros [= <-]. exists o. simpl. repeat split; [by exists a|].
    intros Hlen.
    destruct (Z.leb_spec (a - Z.min (amount o) a) 0) as [Hz|]; [|lia].
    rewrite fills_of_nonpos in Hlen by done. simpl in Hlen. lia.
  - intros Hi. destruct (IH _ _ Hi) as (o' & Ho' & Hid & Hp & Hq & Hfull).
    exists o'. repeat split; try done. intros Hlen. apply Hfull. lia.
Qed.

(** The fills of a trade follow the book: the [i]-th fill is taken from
    the [i]-th order of the side, at that order's price; with positive
    resting amounts it takes a positive amount, no more than the order
    holds, and every fill but the last takes its order whole. *)
Theorem execute_fills_follow_book
    (uuid : string) (now : Z) (h : list Order) (b : OrderBook) (s : Side) (a : Z) :
  amounts_positive h b →
  let t := (execute uuid now h b s a).1.1 in
  ∀ i f, order_fills t !! i = Some f →
    ∃ r, OrderBook.get_orders b s !! i = Some r
         ∧ fill_order_id f = order_id (deref h r)
         ∧ fill_price f = price (deref h r)
         ∧ 0 < filled_amount f ≤ amount (deref h r)
         ∧ (S i < length (order_fills t) → filled_amount f = amount (deref h r))%nat.
Proof.
  intros Hpos t i f Hf. subst t.
  destruct (execute_trade uuid now h b s a) as (Hfills & _).
  rewrite Hfills in Hf |- *.
  destruct (fills_of_lookup _ _ _ _ Hf) as (o & Ho & Hid & Hp & (q & Hq & Hmin) & Hfull).
  apply list_lookup_fmap_Some_1 in Ho as (r & -> & Hr).
  exists r. repeat split; try done.
  - assert (0 < amount (deref h r)); [|lia].
    apply Hpos. eapply get_orders_resting. by eapply list_elem_of_lookup_2.
  - lia.
Qed.

Lemma execute_fills_follow_book_witness :
  let t := (execute "t" 0 sample_heap sample_book BUY 22).1.1 in
  ∃ r, OrderBook.get_orders sample_book BUY !! 1%nat = Some r
       ∧ fill_order_id (mkOrderFill 4 2 21) = order_id (deref sample_heap r)
       ∧ fill_price (mkOrderFill 4 2 21) = price (deref sample_heap r)
       ∧ 0 < filled_amount (mkOrderFill 4 2 21) ≤ amount (deref sample_heap r)
       ∧ (2 < length (order_fills t) →
          filled_amount (mkOrderFill 4 2 21) = amount (deref sample_heap r))%nat.
Proof.
  apply (execute_fills_follow_book "t" 0 sample_heap sample_book BUY 22
           sample_book_positive 1%nat (mkOrderFill 4 2 21)).
  reflexivity.
Defined.

End executor_aftermath.

(** ** Price-time priority across trades and across the system *)

Lemma ordered_set_amount h b r v :
  priority_ordered h b → priority_ordered (set_amount h r v) b.
Proof.
  intros (Hbuy & Hsell & Hb & Hs). unfold priority_ordered. repeat split.
  - eapply sorted_same_keys; [|exact Hbuy].
    intros x _. unfold buy_key. apply deref_set_amount.
  - eapply sorted_same_keys; [|exact Hsell].
    intros x _. unfold sell_key. f_equal. apply deref_set_amount.
  - eapply Forall_impl; [exact Hb|]. intros x [Hx Hsd]. simpl.
    rewrite length_set_amount. split; [done|].
    by rewrite (proj1 (proj2 (proj2 (deref_set_amount h r v x)))).
  - eapply Forall_impl; [exact Hs|]. intros x [Hx Hsd]. simpl.
    rewrite length_set_amount. split; [done|].
    by rewrite (proj1 (proj2 (proj2 (deref_set_amount h r v x)))).
Qed.

Lemma ordered_alloc h b o :
  priority_ordered h b → priority_ordered (h ++ [o]) b.
Proof.
  intros (Hbuy & Hsell & Hb & Hs). unfold priority_ordered.
  assert (∀ sd l, Forall (λ r, (r < length h)%nat ∧ side (deref h r) = sd) l →
            ∀ r, r ∈ l → deref (h ++ [o]) r = deref h r) as Hold.
  { intros sd l Hl r Hr. rewrite Forall_forall in Hl.
    apply deref_alloc_old. by apply Hl. }
  repeat split.
  - eapply sorted_same_keys; [|exact Hbuy].
    intros r Hr. by rewrite (Hold BUY _ Hb).
  - eapply sorted_same_keys; [|exact Hsell].
    intros r Hr. by rewrite (Hold SELL _ Hs).
  - apply Forall_forall. intros r Hr. rewrite (Hold BUY _ Hb) by done.
    rewrite Forall_forall in Hb. destruct (Hb r Hr). rewrite length_app. simpl.
    split; [lia|done].
  - apply Forall_forall. intros r Hr. rewrite (Hold SELL _ Hs) by done.
    rewrite Forall_forall in Hs. destruct (Hs r Hr). rewrite length_app. simpl.
    split; [lia|done].
Qed.

Section executor_ordered.
Import TradeExecutor.

Lemma step_ordered r s :
  (priority_ordered (ex_heap s) (ex_book s) →
   priority_ordered (ex_heap (step r s)) (ex_book (step r s)))
  ∧ (∀ b2, priority_ordered (ex_heap s) b2 →
           priority_ordered (ex_heap (step r s)) b2).
Proof.
  unfold step. destruct (_ =? 0); cbn [ex_heap ex_book].
  - split; [|done]. intros Hord.
    apply (apply_op_priority_ordered _ _ (OpRemove _) Hord).
  - assert (∀ b2, priority_ordered (ex_heap s) b2 →
              priority_ordered
                (OrderBook.update_order_amount (ex_heap s) (ex_book s)
                   (order_id (deref (ex_heap s) r))
                   (amount (deref (ex_heap s) r)
                    - Z.min (amount (deref (ex_heap s) r)) (ex_remaining s))).2 b2)
      as Hany.
    { intros b2 Hord. unfold OrderBook.update_order_amount.
      destruct (_order_index (ex_book s) !! _); cbn [snd]; [|done].
      by apply ordered_set_amount. }
    split; [apply Hany|exact Hany].
Qed.

Lemma loop_ordered orders s :
  (priority_ordered (ex_heap s) (ex_book s) →
   priority_ordered (ex_heap (loop orders s)) (ex_book (loop orders s)))
  ∧ (∀ b2, priority_ordered (ex_heap s) b2 →
           priority_ordered (ex_heap (loop orders s)) b2).
Proof.
  revert s. induction orders as [|r rest IH]; intros s; cbn [loop]; [done|].
  destruct (_ <=? 0); [done|].
  destruct (step_ordered r s) as [Hown Hany].
  destruct (IH (step r s)) as [IHown IHany].
  split; auto.
Qed.

Lemma execute_keeps_priority'
    (uuid : string) (now : Z) (h : list Order) (b : OrderBook) (s : Side) (a : Z) :
  priority_ordered h b →
  let '(_, h', b') := execute uuid now h b s a in
  priority_ordered h' b'
  ∧ ∀ b2, priority_ordered h b2 → priority_ordered h' b2.
Proof.
  intros Hord. unfold execute.
  destruct (loop_ordered (OrderBook.get_orders b s) (mkExec h b [] a 0 0))
    as [Hown Hany].
  split; [by apply Hown|exact Hany].
Qed.

(** A trade keeps both sides of the book in price-time priority, and any
    other book over the same store as well. *)
Theorem execute_keeps_priority
    (uuid : string) (now : Z) (h : list Order) (b : OrderBook) (s : Side) (a : Z) :
  priority_ordered h b →
  let '(_, h', b') := execute uuid now h b s a in
  priority_ordered h' b'
  ∧ ∀ b2, priority_ordered h b2 → priority_ordered h' b2.
Proof. apply execute_keeps_priority'. Qed.

Lemma execute_keeps_priority_witness :
  let '(_, h', b') := execute "t" 0 sample_heap sample_book BUY 22 in
  priority_ordered h' b'
  ∧ ∀ b2, priority_ordered sample_heap b2 → priority_ordered h' b2.
Proof.
  apply (execute_keeps_priority "t" 0 sample_heap sample_book BUY 22).
  exact sample_book_ordered.
Defined.

(** On a book in price-time priority the fills of a BUY trade come with
    non-decreasing prices and those of a SELL trade with non-increasing
    prices: the best price is consumed first. *)
Theorem execute_best_price_first
    (uuid : string) (now : Z) (h : list Order) (b : OrderBook) (s : Side) (a : Z) :
  priority_ordered h b →
  let t := (execute uuid now h b s a).1.1 in
  ∀ i j fi fj, (i < j)%nat →
    order_fills t !! i = Some fi →
    order_fills t !! j = Some fj →
    match s with
    | BUY => fill_price fi ≤ fill_price fj
    | SELL => fill_price fj ≤ fill_price fi
    end.
Proof.
  intros (Hbuy & Hsell & _) t i j fi fj Hij Hi Hj. subst t.
  destruct (execute_trade uuid now h b s a) as (Hfills & _).
  rewrite Hfills in Hi, Hj.
  destruct (fills_of_lookup _ _ _ _ Hi) as (oi & Hoi & _ & -> & _).
  destruct (fills_of_lookup _ _ _ _ Hj) as (oj & Hoj & _ & -> & _).
  apply list_lookup_fmap_Some_1 in Hoi as (ri & -> & Hri).
  apply list_lookup_fmap_Some_1 in Hoj as (rj & -> & Hrj).
  destruct s; simpl in Hri, Hrj.
  - pose proof (sorted_lookup _ _ _ _ _ _ Hbuy Hij Hri Hrj) as He.
    unfold earlier, buy_key in He. lia.
  - pose proof (sorted_lookup _ _ _ _ _ _ Hsell Hij Hri Hrj) as He.
    unfold earlier, sell_key in He. lia.
Qed.

Lemma execute_best_price_first_witness :
  fill_price (mkOrderFill 1 20 20) ≤ fill_price (mkOrderFill 4 2 21).
Proof.
  apply (execute_best_price_first "t" 0 sample_heap sample_book BUY 22
           sample_book_ordered 0%nat 1%nat (mkOrderFill 1 20 20) (mkOrderFill 4 2 21));
    [lia|reflexivity|reflexivity].
Defined.

End executor_ordered.

Lemma get_or_create_ordered st sym :
  all_ordered st →
  all_ordered (OrderManagement._get_or_create_order_book st sym).2
  ∧ priority_ordered (heap st) (OrderManagement._get_or_create_order_book st sym).1.
Proof.
  intros Hall. unfold OrderManagement._get_or_create_order_book.
  destruct (_order_books st !! sym) as [bk|] eqn:Hbk; simpl.
  - split; [done|]. by apply (Hall sym).
  - split; [|apply init_priority_ordered]. intros sym' b'. simpl.
    rewrite lookup_insert. destruct (decide (sym = sym')) as [->|Hne].
    + intros [= <-]. apply init_priority_ordered.
    + apply Hall.
Qed.

Lemma exec_ordered st c : all_ordered st → all_ordered (exec st c).
Proof.
  intros Hall.
  destruct c as [oid sym s amt prc|oid|sym s amt|uuid now sym s amt]; simpl.
  - unfold OrderManagement.add_order.
    destruct (_orders st !! oid); simpl; [done|].
    set (o := mkOrder oid sym s amt prc).
    set (st1 := mkOM (heap st ++ [o]) (_order_books st) (_orders st)).
    assert (∀ b2, priority_ordered (heap st) b2 →
                  priority_ordered (heap st ++ [o])
                    (OrderBook.add_order (heap st ++ [o]) b2 (length (heap st))))
      as Hadd.
    { intros b2 Hb2. apply (apply_op_priority_ordered _ _ (OpAdd o) Hb2). }
    unfold OrderManagement._get_or_create_order_book. cbn [_order_books st1].
    destruct (_order_books st !! sym) as [bk|] eqn:Hbk; simpl;
      intros sym' b'; simpl; rewrite lookup_insert;
      destruct (decide (sym = sym')) as [->|Hne].
    + intros [= <-]. apply Hadd. by apply (Hall sym').
    + intros Hb'. apply ordered_alloc. by apply (Hall sym').
    + intros [= <-]. apply Hadd. apply init_priority_ordered.
    + rewrite lookup_insert_ne by done.
      intros Hb'. apply ordered_alloc. by apply (Hall sym').
  - unfold OrderManagement.remove_order.
    destruct (_orders st !! oid) as [r|]; [|done].
    intros sym' b'. simpl.
    destruct (_order_books st !! symbol (deref (heap st) r)) as [bk|] eqn:Hbk;
      [|apply Hall].
    rewrite lookup_insert.
    destruct (decide (symbol (deref (heap st) r) = sym')) as [<-|Hne]; [|apply Hall].
    intros [= <-].
    apply (apply_op_priority_ordered _ _ (OpRemove oid) (Hall _ _ Hbk)).
  - unfold OrderManagement.calculate_price.
    pose proof (get_or_create_ordered st sym Hall) as [Hall1 _].
    by destruct (OrderManagement._get_or_create_order_book st sym).
  - unfold OrderManagement.place_trade.
    pose proof (get_or_create_ordered st sym Hall) as [Hall1 Hbk].
    pose proof (get_or_create_heap st sym) as [Hheap _].
    destruct (OrderManagement._get_or_create_order_book st sym) as [bk st1].
    cbn [fst snd] in *. rewrite <-Hheap in Hbk.
    pose proof (execute_keeps_priority' uuid now (heap st1) bk s amt Hbk) as Hex.
    destruct (TradeExecutor.execute uuid now (heap st1) bk s amt) as [[t h'] b'].
    destruct Hex as [Hown Hany]. simpl.
    intros sym' b''. simpl.
    rewrite lookup_insert. destruct (decide (sym = sym')) as [->|Hne].
    + by intros [= <-].
    + intros Hb''. by apply Hany, (Hall1 sym' b'').
Qed.

Lemma all_ordered_reachable st : reachable st → all_ordered st.
Proof.
  intros [cs ->].
  assert (∀ st0, all_ordered st0 → all_ordered (foldl exec st0 cs)) as Hgen.
  { induction cs as [|c cs IH]; intros st0 Hst0; [done|].
    cbn [foldl]. by apply IH, exec_ordered. }
  apply Hgen. intros sym b Hb. simpl in Hb. by rewrite lookup_empty in Hb.
Qed.

(** In every state the public operations can reach, every book has its
    BUY side in ascending and its SELL side in descending price order,
    orders of equal price in order of creation. *)
Theorem reachable_ordered (st : OrderManagement) :
  reachable st → all_ordered st.
Proof. apply all_ordered_reachable. Qed.

Lemma reachable_ordered_witness : all_ordered (half_filled "t" 0).
Proof.
  apply (reachable_ordered (half_filled "t" 0)).
  apply half_filled_reachable.
Defined.

(** ** The facade: queries, additions, removals *)

(** [calculate_price] touches neither the store nor the facade's index
    nor any existing book (it may add an empty book for an unseen
    symbol); asked again it gives the same price and changes nothing, and
    no other query is answered differently after it. *)
Theorem calculate_price_pure
    (st : OrderManagement) (sym : string) (s : Side) (a : Z) :
  let '(p, st1) := OrderManagement.calculate_price st sym s a in
  heap st1 = heap st
  ∧ _orders st1 = _orders st
  ∧ (∀ sym' b, _order_books st !! sym' = Some b →
               _order_books st1 !! sym' = Some b)
  ∧ OrderManagement.calculate_price st1 sym s a = (p, st1)
  ∧ ∀ sym' s' a',
      (OrderManagement.calculate_price st1 sym' s' a').1
      = (OrderManagement.calculate_price st sym' s' a').1.
Proof.
  unfold OrderManagement.calculate_price.
  pose proof (get_or_create_twice st sym) as Htwice.
  pose proof (get_or_create_heap st sym) as [Hheap Horders].
  assert (∀ sym' b, _order_books st !! sym' = Some b →
            _order_books (OrderManagement._get_or_create_order_book st sym).2
              !! sym' = Some b) as Hkeep.
  { intros sym' b Hb. unfold OrderManagement._get_or_create_order_book.
    destruct (_order_books st !! sym) eqn:Hs; simpl; [done|].
    rewrite lookup_insert_ne; [done|]. intros ->. congruence. }
  assert (∀ sym' s',
            OrderBook.get_orders
              (OrderManagement._get_or_create_order_book
                 (OrderManagement._get_or_create_order_book st sym).2 sym').1 s'
            = OrderBook.get_orders
                (OrderManagement._get_or_create_order_book st sym').1 s') as Hsame.
  { intros sym' s'. unfold OrderManagement._get_or_create_order_book at 1 3.
    destruct (_order_books st !! sym') as [b|] eqn:Hb.
    - by rewrite (Hkeep _ _ Hb).
    - unfold OrderManagement._get_or_create_order_book.
      destruct (_order_books st !! sym) eqn:Hs; simpl; [by rewrite Hb|].
      rewrite lookup_insert. destruct (decide (sym = sym')) as [->|Hne]; [done|].
      by rewrite Hb. }
  destruct (OrderManagement._get_or_create_order_book st sym) as [bk st1] eqn:Hg.
  cbn [fst snd] in *. rewrite Htwice.
  repeat split; try done.
  intros sym' s' a'. specialize (Hsame sym' s').
  pose proof (get_or_create_heap st1 sym') as [Hh1 _].
  pose proof (get_or_create_heap st sym') as [Hh0 _].
  destruct (OrderManagement._get_or_create_order_book st1 sym') as [b1 st1'].
  destruct (OrderManagement._get_or_create_order_book st sym') as [b0 st0'].
  cbn [fst snd] in *. by rewrite Hsame, Hh1, Hh0, Hheap.
Qed.

(** Adding an order under an id the facade does not know succeeds: the
    id is registered for a new object holding exactly the given fields,
    the symbol's book finds it under its id and lists it on its side,
    and every other id, every other symbol's book and every existing
    object is as before. *)
Theorem add_order_fresh
    (st : OrderManagement) (oid : Z) (sym : string) (s : Side) (amt prc : Z) :
  _orders st !! oid = None →
  let '(outcome, st') := OrderManagement.add_order st oid sym s amt prc in
  outcome = Return ()
  ∧ ∃ r b',
      _orders st' !! oid = Some r
      ∧ deref (heap st') r = mkOrder oid sym s amt prc
      ∧ _order_books st' !! sym = Some b'
      ∧ OrderBook.get_order b' oid = Some r
      ∧ r ∈ OrderBook.get_orders b' s
      ∧ (∀ oid', oid' ≠ oid → _orders st' !! oid' = _orders st !! oid')
      ∧ (∀ sym', sym' ≠ sym → _order_books st' !! sym' = _order_books st !! sym')
      ∧ (∀ x, (x < length (heap st))%nat → deref (heap st') x = deref (heap st) x).
Proof.
  intros Hnew. unfold OrderManagement.add_order. rewrite Hnew.
  cbn [alloc].
  set (o := mkOrder oid sym s amt prc).
  set (st1 := mkOM (heap st ++ [o]) (_order_books st) (_orders st)).
  pose proof (get_or_create_heap st1 sym) as [_ Horders].
  assert (∀ sym', sym' ≠ sym →
            _order_books (OrderManagement._get_or_create_order_book st1 sym).2
              !! sym' = _order_books st !! sym') as Hother.
  { intros sym' Hne. unfold OrderManagement._get_or_create_order_book.
    destruct (_order_books st1 !! sym); simpl; [done|].
    by rewrite lookup_insert_ne. }
  destruct (OrderManagement._get_or_create_order_book st1 sym) as [bk st2].
  cbn [fst snd] in *. split; [done|].
  exists (length (heap st)),
    (OrderBook.add_order (heap st ++ [o]) bk (length (heap st))).
  cbn [heap _orders _order_books].
  rewrite Horders. cbn [_orders st1].
  repeat split.
  - by rewrite lookup_insert_eq.
  - apply deref_alloc_new.
  - by rewrite lookup_insert_eq.
  - unfold OrderBook.get_order, OrderBook.add_order.
    rewrite deref_alloc_new.
    destruct s; simpl; by rewrite lookup_insert_eq.
  - unfold OrderBook.add_order. rewrite deref_alloc_new.
    destruct s; simpl; rewrite add_perm; left.
  - intros oid' Hne. by rewrite lookup_insert_ne.
  - intros sym' Hne. rewrite lookup_insert_ne by done. by apply Hother.
  - intros x Hx. by apply deref_alloc_old.
Qed.

Lemma add_order_fresh_witness :
  let '(outcome, st') :=
    OrderManagement.add_order OrderManagement.init 1 "JPM" BUY 20 20 in
  outcome = Return ()
  ∧ ∃ r b',
      _orders st' !! 1 = Some r
      ∧ deref (heap st') r = mkOrder 1 "JPM" BUY 20 20
      ∧ _order_books st' !! "JPM" = Some b'
      ∧ OrderBook.get_order b' 1 = Some r
      ∧ r ∈ OrderBook.get_orders b' BUY
      ∧ (∀ oid', oid' ≠ 1 →
           _orders st' !! oid' = _orders OrderManagement.init !! oid')
      ∧ (∀ sym', sym' ≠ "JPM"%string →
           _order_books st' !! sym' = _order_books OrderManagement.init !! sym')
      ∧ (∀ x, (x < length (heap OrderManagement.init))%nat →
              deref (heap st') x = deref (heap OrderManagement.init) x).
Proof.
  apply (add_order_fresh OrderManagement.init 1 "JPM" BUY 20 20).
  reflexivity.
Defined.

Lemma discard_add (key : Order → Z) h r l :
  (∀ x, x ∈ l → deref h x ≠ deref h r) →
  SortedList.discard h r (SortedList.add key h r l) = l.
Proof.
  induction l as [|x l IH]; intros Hne; simpl.
  - by rewrite decide_True.
  - destruct (_ <=? _); simpl.
    + rewrite decide_False by (apply Hne; left).
      f_equal. apply IH. intros y Hy. apply Hne. by right.
    + by rewrite decide_True.
Qed.

(** On the book: adding a new object under an id the book does not hold
    and removing that id again hands the object back and restores the
    book, sides and index. *)
Theorem book_add_then_remove (h : list Order) (b : OrderBook) (o : Order) :
  _order_index b !! order_id o = None →
  (∀ x, x ∈ resting b → (x < length h)%nat ∧ order_id (deref h x) ≠ order_id o) →
  let h' := h ++ [o] in
  let r := length h in
  OrderBook.remove_order h' (OrderBook.add_order h' b r) (order_id o)
  = (Some r, b).
Proof.
  intros Hidx Hrest h' r. subst h' r.
  assert (∀ x, x ∈ resting b →
            deref (h ++ [o]) x ≠ deref (h ++ [o]) (length h)) as Hne.
  { intros x Hx. destruct (Hrest x Hx) as [Hlt Hid].
    rewrite deref_alloc_old, deref_alloc_new by done. by intros <-. }
  unfold OrderBook.add_order, OrderBook.remove_order.
  rewrite deref_alloc_new.
  destruct b as [sym buy sell idx]. unfold resting in Hne. simpl in *.
  destruct (side o) eqn:Hside; simpl;
    rewrite lookup_insert_eq, deref_alloc_new, Hside, discard_add,
      delete_insert_id by (try done; intros x Hx; apply Hne, elem_of_app; auto);
    done.
Qed.

Lemma book_add_then_remove_witness :
  let o := mkOrder 9 "JPM" BUY 3 20 in
  OrderBook.remove_order (sample_heap ++ [o])
    (OrderBook.add_order (sample_heap ++ [o]) sample_book (length sample_heap)) 9
  = (Some (length sample_heap), sample_book).
Proof.
  apply (book_add_then_remove sample_heap sample_book (mkOrder 9 "JPM" BUY 3 20)).
  - reflexivity.
  - intros x Hx. unfold resting, sample_book in Hx; simpl in Hx.
    repeat (apply elem_of_cons in Hx as [->|Hx];
            [split; [simpl; lia|vm_compute; discriminate]|]).
    by apply elem_of_nil in Hx.
Defined.

(** A missing id: [remove_order] returns [None] and [update_order_amount]
    returns [False], and neither changes the book or the store. *)
Theorem book_missing_id (h : list Order) (b : OrderBook) (oid v : Z) :
  OrderBook.get_order b oid = None →
  OrderBook.remove_order h b oid = (None, b)
  ∧ OrderBook.update_order_amount h b oid v = (false, h).
Proof.
  unfold OrderBook.get_order, OrderBook.remove_order,
    OrderBook.update_order_amount. by intros ->.
Qed.

Lemma book_missing_id_witness :
  OrderBook.remove_order sample_heap sample_book 99 = (None, sample_book)
  ∧ OrderBook.update_order_amount sample_heap sample_book 99 5 = (false, sample_heap).
Proof.
  apply (book_missing_id sample_heap sample_book 99 5). reflexivity.
Defined.

(** Setting the amount of an indexed order changes that one field of
    that one object: the book, every other object and the order's own
    id, symbol, side and price stay, so no position in either side
    moves. *)
Theorem update_order_amount_known
    (h : list Order) (b : OrderBook) (oid v : Z) (r : nat) :
  OrderBook.get_order b oid = Some r →
  (r < length h)%nat →
  let '(found, h') := OrderBook.update_order_amount h b oid v in
  found = true
  ∧ deref h' r = mkOrder (order_id (deref h r)) (symbol (deref h r))
                   (side (deref h r)) v (price (deref h r))
  ∧ (∀ x, x ≠ r → deref h' x = deref h x)
  ∧ length h' = length h
  ∧ ∀ sd, price <$> view h' (OrderBook.get_orders b sd)
          = price <$> view h (OrderBook.get_orders b sd).
Proof.
  unfold OrderBook.get_order, OrderBook.update_order_amount.
  intros -> Hlt. repeat split.
  - by rewrite deref_set_amount_eq, decide_True.
  - intros x Hne. rewrite deref_set_amount_eq, decide_False; [done|]. tauto.
  - apply length_set_amount.
  - intros sd. unfold view. rewrite <-!list_fmap_compose.
    apply list_fmap_ext. intros i x _. simpl. apply deref_set_amount.
Qed.

Lemma update_order_amount_known_witness :
  let '(found, h') := OrderBook.update_order_amount sample_heap sample_book 4 6 in
  found = true
  ∧ deref h' 1%nat = mkOrder (order_id (deref sample_heap 1%nat))
                       (symbol (deref sample_heap 1%nat))
                       (side (deref sample_heap 1%nat)) 6
                       (price (deref sample_heap 1%nat))
  ∧ (∀ x, x ≠ 1%nat → deref h' x = deref sample_heap x)
  ∧ length h' = length sample_heap
  ∧ ∀ sd, price <$> view h' (OrderBook.get_orders sample_book sd)
          = price <$> view sample_heap (OrderBook.get_orders sample_book sd).
Proof.
  apply (update_order_amount_known sample_heap sample_book 4 6 1%nat).
  - reflexivity.
  - simpl. lia.
Defined.

(** ** The facade: what a trade may and may not touch *)

Lemma same_but_amounts_refl h : same_but_amounts h h.
Proof. by split. Qed.

Lemma same_but_amounts_trans h1 h2 h3 :
  same_but_amounts h1 h2 → same_but_amounts h2 h3 → same_but_amounts h1 h3.
Proof.
  intros [Hl1 Hf1] [Hl2 Hf2]. split; [congruence|].
  intros x. destruct (Hf1 x) as (? & ? & ? & ?), (Hf2 x) as (? & ? & ? & ?).
  repeat split; congruence.
Qed.

Lemma same_but_amounts_set h r v : same_but_amounts h (set_amount h r v).
Proof.
  split; [apply length_set_amount|]. intros x.
  destruct (deref_set_amount h r v x) as (? & ? & ? & ? & _). done.
Qed.

Section trade_frame.
Import TradeExecutor.

Lemma step_same_but_amounts r s :
  same_but_amounts (ex_heap s) (ex_heap (step r s)).
Proof.
  unfold step. destruct (_ =? 0); cbn [ex_heap]; [apply same_but_amounts_refl|].
  unfold OrderBook.update_order_amount.
  destruct (_order_index (ex_book s) !! _); cbn [snd];
    [apply same_but_amounts_set|apply same_but_amounts_refl].
Qed.

Lemma loop_same_but_amounts orders s :
  same_but_amounts (ex_heap s) (ex_heap (loop orders s)).
Proof.
  revert s. induction orders as [|r rest IH]; intros s; cbn [loop];
    [apply same_but_amounts_refl|].
  destruct (_ <=? 0); [apply same_but_amounts_refl|].
  eapply same_but_amounts_trans; [apply step_same_but_amounts|apply IH].
Qed.

Lemma track_fill_submap h orders f oid r :
  OrderManagement.track_fill h orders f !! oid = Some r → orders !! oid = Some r.
Proof.
  unfold OrderManagement.track_fill.
  destruct (orders !! fill_order_id f); [|done].
  destruct (_ =? 0); [|done].
  rewrite lookup_delete. by destruct (decide _).
Qed.

Lemma track_fills_submap h fills orders oid r :
  foldl (OrderManagement.track_fill h) orders fills !! oid = Some r →
  orders !! oid = Some r.
Proof.
  revert orders. induction fills as [|f fills IH]; intros orders; simpl; [done|].
  intros Hl. by eapply track_fill_submap, IH.
Qed.

(** A trade creates nothing and rewrites nothing but amounts: the store
    keeps its size and every object its id, symbol, side and price; the
    facade's index can only lose ids; the books of other symbols are
    not touched; the traded book gains no order. *)
Theorem place_trade_frame
    (uuid : string) (now : Z) (st : OrderManagement)
    (sym : string) (s : Side) (a : Z) :
  let '(_, st') := OrderManagement.place_trade uuid now st sym s a in
  same_but_amounts (heap st) (heap st')
  ∧ (∀ oid r, _orders st' !! oid = Some r → _orders st !! oid = Some r)
  ∧ (∀ sym', sym' ≠ sym → _order_books st' !! sym' = _order_books st !! sym')
  ∧ (∀ b, _order_books st !! sym = Some b →
       ∃ b', _order_books st' !! sym = Some b'
             ∧ ∀ x, x ∈ resting b' → x ∈ resting b).
Proof.
  unfold OrderManagement.place_trade.
  pose proof (get_or_create_heap st sym) as [Hheap Horders].
  assert (∀ sym', sym' ≠ sym →
            _order_books (OrderManagement._get_or_create_order_book st sym).2
              !! sym' = _order_books st !! sym') as Hother.
  { intros sym' Hne. unfold OrderManagement._get_or_create_order_book.
    destruct (_order_books st !! sym); simpl; [done|].
    by rewrite lookup_insert_ne. }
  assert (∀ b, _order_books st !! sym = Some b →
            (OrderManagement._get_or_create_order_book st sym).1 = b) as Hbook.
  { intros b Hb. unfold OrderManagement._get_or_create_order_book. by rewrite Hb. }
  destruct (OrderManagement._get_or_create_order_book st sym) as [bk st1].
  cbn [fst snd] in *. rewrite Hheap.
  unfold execute.
  pose proof (loop_same_but_amounts (OrderBook.get_orders bk s)
                (mkExec (heap st) bk [] a 0 0)) as Hsame.
  destruct (loop_shrinks (OrderBook.get_orders bk s)
              (mkExec (heap st) bk [] a 0 0)) as (Hb & Hs & _).
  cbn [ex_heap ex_book] in Hsame, Hb, Hs.
  set (fin := loop (OrderBook.get_orders bk s) (mkExec (heap st) bk [] a 0 0)) in *.
  clearbody fin.
  unfold OrderManagement._update_local_order_tracking. simpl.
  split; [exact Hsame|]. split; [|split].
  - intros oid r Hl. apply track_fills_submap in Hl. by rewrite <-Horders.
  - intros sym' Hne. rewrite lookup_insert_ne by done. by apply Hother.
  - intros b Hbk. rewrite (Hbook b Hbk) in *.
    eexists. rewrite lookup_insert_eq. split; [done|].
    by apply resting_shrinks.
Qed.

(** The price-quantity law across a trade: when the symbol's book is
    well formed, trading [a] and then asking the price of [q] gives what
    [a + q] would have cost before, less the price of the trade. *)
Theorem place_trade_then_price
    (uuid : string) (now : Z) (st : OrderManagement)
    (sym : string) (s : Side) (a q : Z) :
  (∀ b, _order_books st !! sym = Some b → book_wf (heap st) b) →
  0 ≤ a → 0 ≤ q →
  let '(trade, st') := OrderManagement.place_trade uuid now st sym s a in
  (OrderManagement.calculate_price st' sym s q).1
  = (OrderManagement.calculate_price st sym s (a + q)).1 - total_price trade.
Proof.
  intros Hwf Ha Hq.
  unfold OrderManagement.place_trade, OrderManagement.calculate_price.
  pose proof (get_or_create_heap st sym) as [Hheap _].
  assert (book_wf (heap st) (OrderManagement._get_or_create_order_book st sym).1)
    as Hbk.
  { unfold OrderManagement._get_or_create_order_book.
    destruct (_order_books st !! sym) as [b|] eqn:Hb; simpl; [by apply Hwf|].
    unfold book_wf, resting, OrderBook.init; simpl.
    repeat split; try constructor; intros r Hr; by apply elem_of_nil in Hr. }
  destruct (OrderManagement._get_or_create_order_book st sym) as [bk st1].
  cbn [fst snd] in *. rewrite Hheap.
  pose proof (execute_leaves' uuid now (heap st) bk s a Hbk) as Hleaves.
  pose proof (execute_trade uuid now (heap st) bk s a) as (_ & _ & Hprice & _).
  destruct (execute uuid now (heap st) bk s a) as [[t h'] b'].
  cbn [fst] in Hprice. destruct Hleaves as [Hview _].
  unfold OrderManagement._update_local_order_tracking,
    OrderManagement._get_or_create_order_book.
  cbn [heap _order_books _orders]. rewrite lookup_insert_eq. cbn [fst snd heap].
  change (deref h' <$> OrderBook.get_orders b' s)
    with (view h' (OrderBook.get_orders b' s)).
  change (deref (heap st) <$> OrderBook.get_orders bk s)
    with (view (heap st) (OrderBook.get_orders bk s)).
  rewrite Hview, Hprice, <-calculate_fills.
  rewrite <-(calculate_continues _ a q) by done. lia.
Qed.

End trade_frame.

Lemma two_orders_book_wf :
  ∀ b, _order_books two_orders !! "JPM" = Some b → book_wf (heap two_orders) b.
Proof.
  intros b Hb. vm_compute in Hb. injection Hb as <-.
  unfold book_wf, resting; simpl. repeat split.
  - apply (bool_decide_unpack _). by vm_compute.
  - intros r Hr.
    repeat (apply elem_of_cons in Hr as [->|Hr]; [reflexivity|]).
    by apply elem_of_nil in Hr.
  - intros r Hr. by apply elem_of_nil in Hr.
  - intros r Hr.
    repeat (apply elem_of_cons in Hr as [->|Hr]; [vm_compute; reflexivity|]).
    by apply elem_of_nil in Hr.
Defined.

Lemma place_trade_then_price_witness :
  let '(trade, st') := OrderManagement.place_trade "t" 0 two_orders "JPM" BUY 22 in
  (OrderManagement.calculate_price st' "JPM" BUY 8).1
  = (OrderManagement.calculate_price two_orders "JPM" BUY (22 + 8)).1
    - total_price trade.
Proof.
  apply (place_trade_then_price "t" 0 two_orders "JPM" BUY 22 8).
  - exact two_orders_book_wf.
  - lia.
  - lia.
Defined.

(** ** Consistency of the facade with its books *)

Lemma init_book_wf h sym : book_wf h (OrderBook.init sym).
Proof.
  unfold book_wf, resting, OrderBook.init; simpl.
  repeat split; try constructor; intros r Hr; by apply elem_of_nil in Hr.
Qed.

Lemma init_consistent : consistent OrderManagement.init.
Proof.
  split.
  - intros sym b Hb. simpl in Hb. by rewrite lookup_empty in Hb.
  - intros oid r Hr. simpl in Hr. by rewrite lookup_empty in Hr.
Qed.

(** Well-formedness reads ids and sides only. *)
Lemma book_wf_same_fields h h' b :
  (∀ x, x ∈ resting b →
     order_id (deref h' x) = order_id (deref h x)
     ∧ side (deref h' x) = side (deref h x)) →
  book_wf h b → book_wf h' b.
Proof.
  intros Hsame (Hnd & Hbuy & Hsell & Hidx). unfold book_wf.
  repeat split; [done|..].
  - intros r Hr.
    assert (r ∈ resting b) as Hin by (unfold resting; rewrite elem_of_app; auto).
    rewrite (proj2 (Hsame r Hin)). auto.
  - intros r Hr.
    assert (r ∈ resting b) as Hin by (unfold resting; rewrite elem_of_app; auto).
    rewrite (proj2 (Hsame r Hin)). auto.
  - intros r Hr. rewrite (proj1 (Hsame r Hr)). auto.
Qed.

Lemma get_or_create_consistent st sym :
  consistent st → consistent (OrderManagement._get_or_create_order_book st sym).2.
Proof.
  intros [Hbooks Hfacade]. unfold OrderManagement._get_or_create_order_book.
  destruct (_order_books st !! sym) as [bk|] eqn:Hbk; simpl; [done|].
  split; simpl.
  - intros sym' b'. rewrite lookup_insert.
    destruct (decide (sym = sym')) as [->|Hne]; [|apply Hbooks].
    intros [= <-]. split; [apply init_book_wf|]. split.
    + intros oid r Hr. simpl in Hr. by rewrite lookup_empty in Hr.
    + intros r Hr. by apply elem_of_nil in Hr.
  - intros oid r Hr. destruct (Hfacade oid r Hr) as (Hid & b & Hb & Hrest).
    split; [done|]. exists b. split; [|done].
    rewrite lookup_insert_ne; [done|]. intros ->. congruence.
Qed.

(** In a consistent state the facade's index and the books' indices
    agree. *)
Lemma consistent_indices_agree' (st : OrderManagement) :
  consistent st → indices_agree st.
Proof.
  intros [Hbooks Hfacade] oid. split; [split|].
  - intros [r Hr]. destruct (Hfacade oid r Hr) as (Hid & b & Hb & Hrest).
    exists (symbol (deref (heap st) r)), b. split; [done|].
    destruct (Hbooks _ _ Hb) as ((_ & _ & _ & Hidx) & _).
    exists r. rewrite <-Hid. by apply Hidx.
  - intros (sym & b & Hb & r & Hr).
    destruct (Hbooks _ _ Hb) as (_ & Hindex & Hrest).
    destruct (Hindex oid r Hr) as [Hin Hid].
    exists r. rewrite <-Hid. by apply Hrest.
  - intros r sym b r' Hr Hb Hr'.
    destruct (Hbooks _ _ Hb) as (_ & Hindex & Hrest).
    destruct (Hindex oid r' Hr') as [Hin Hid].
    destruct (Hrest r' Hin) as (_ & _ & Hfac). rewrite Hid in Hfac.
    congruence.
Qed.

Lemma add_order_resting_perm h b r :
  resting (OrderBook.add_order h b r) ≡ₚ r :: resting b.
Proof.
  unfold OrderBook.add_order, resting.
  destruct (side (deref h r)); simpl; rewrite add_perm; [done|].
  by rewrite Permutation_middle.
Qed.

Lemma add_order_index h b r :
  _order_index (OrderBook.add_order h b r)
  = <[order_id (deref h r) := r]> (_order_index b).
Proof. unfold OrderBook.add_order. by destruct (side (deref h r)). Qed.

Lemma add_order_sides h b r x :
  (x ∈ _buy_orders (OrderBook.add_order h b r) →
   (x = r ∧ side (deref h r) = BUY) ∨ x ∈ _buy_orders b)
  ∧ (x ∈ _sell_orders (OrderBook.add_order h b r) →
     (x = r ∧ side (deref h r) = SELL) ∨ x ∈ _sell_orders b).
Proof.
  unfold OrderBook.add_order.
  destruct (side (deref h r)); simpl; rewrite ?add_perm, ?elem_of_cons;
    split; intros Hx; tauto.
Qed.

Lemma add_into_consistent st oid sym s amt prc bk :
  consistent st →
  _orders st !! oid = None →
  book_consistent st sym bk →
  (∀ b, _order_books st !! sym = Some b → b = bk) →
  let o := mkOrder oid sym s amt prc in
  consistent
    (mkOM (heap st ++ [o])
       (<[sym := OrderBook.add_order (heap st ++ [o]) bk (length (heap st))]>
          (_order_books st))
       (<[oid := length (heap st)]> (_orders st))).
Proof.
  intros [Hbooks Hfacade] Hnew (Hwf & Hindex & Hrest) Hsame o.
  set (h := heap st) in *. set (h' := h ++ [o]). set (r := length h).
  assert (∀ x, (x < length h)%nat → deref h' x = deref h x) as Hold
    by (intros x Hx; by apply deref_alloc_old).
  assert (deref h' r = o) as Hr by apply deref_alloc_new.
  assert (length h' = S (length h)) as Hlen
    by (unfold h'; rewrite length_app; simpl; lia).
  assert (∀ sym' b x, _order_books st !! sym' = Some b → x ∈ resting b →
            (x < length h)%nat ∧ order_id (deref h x) ≠ oid) as Hfresh.
  { intros sym' b x Hb Hx. destruct (Hbooks _ _ Hb) as (_ & _ & Hres).
    destruct (Hres x Hx) as (Hlt & _ & Hfac). split; [done|].
    intros Heq. rewrite Heq in Hfac. fold h in Hfac. congruence. }
  assert (∀ x, x ∈ resting bk → (x < length h)%nat ∧ order_id (deref h x) ≠ oid)
    as Hfresh_bk.
  { intros x Hx. destruct (Hrest x Hx) as (Hlt & _ & Hfac). split; [done|].
    intros Heq. rewrite Heq in Hfac. congruence. }
  set (nb := OrderBook.add_order h' bk r).
  assert (∀ x, x ∈ resting nb ↔ x = r ∨ x ∈ resting bk) as Hmem.
  { intros x. unfold nb. rewrite add_order_resting_perm, elem_of_cons. done. }
  split; cbn [heap _order_books _orders].
  - intros sym' b'. rewrite lookup_insert.
    destruct (decide (sym = sym')) as [<-|Hne].
    + intros [= <-]. split; [|split].
      * (* the new book is well formed *)
        destruct Hwf as (Hnd & Hbuy & Hsell & Hidx). unfold book_wf. repeat split.
        -- unfold nb. rewrite add_order_resting_perm. apply NoDup_cons.
           split; [|done]. intros Hin. destruct (Hfresh_bk r Hin). unfold r in *. lia.
        -- intros x Hx. apply (proj1 (add_order_sides h' bk r x)) in Hx
             as [[-> Hs]|Hx]; [done|].
           rewrite Hold; [by apply Hbuy|].
           apply Hfresh_bk. unfold resting. rewrite elem_of_app. auto.
        -- intros x Hx. apply (proj2 (add_order_sides h' bk r x)) in Hx
             as [[-> Hs]|Hx]; [done|].
           rewrite Hold; [by apply Hsell|].
           apply Hfresh_bk. unfold resting. rewrite elem_of_app. auto.
        -- intros x Hx. unfold nb. rewrite add_order_index, Hr. simpl.
           apply Hmem in Hx as [->|Hx].
           ++ rewrite Hr. simpl. apply lookup_insert_eq.
           ++ destruct (Hfresh_bk x Hx) as [Hlt Hid].
              rewrite Hold by done. rewrite lookup_insert_ne by done.
              by apply Hidx.
      * intros oid' x. unfold nb. rewrite add_order_index, Hr. simpl.
        rewrite lookup_insert. destruct (decide (oid = oid')) as [<-|Hne].
        -- intros [= <-]. split; [apply Hmem; by left|by rewrite Hr].
        -- intros Hx. destruct (Hindex _ _ Hx) as [Hin Hid].
           split; [apply Hmem; by right|].
           rewrite Hold; [done|]. by apply Hfresh_bk.
      * intros x Hx. apply Hmem in Hx as [->|Hx].
        -- rewrite Hr. simpl. split; [unfold r; lia|]. split; [done|].
           apply lookup_insert_eq.
        -- destruct (Hrest x Hx) as (Hlt & Hsym & Hfac).
           destruct (Hfresh_bk x Hx) as [_ Hid].
           rewrite Hold by done. split; [fold h in Hlt; lia|]. split; [done|].
           by rewrite lookup_insert_ne.
    + intros Hb'. destruct (Hbooks _ _ Hb') as (Hwf' & Hindex' & Hrest').
      split; [|split].
      * eapply book_wf_same_fields; [|exact Hwf'].
        intros x Hx. rewrite Hold; [done|]. by eapply Hfresh.
      * intros oid' x Hx. destruct (Hindex' _ _ Hx) as [Hin Hid].
        split; [done|]. rewrite Hold; [done|]. by eapply Hfresh.
      * intros x Hx. destruct (Hrest' x Hx) as (Hlt & Hsym & Hfac).
        destruct (Hfresh _ _ _ Hb' Hx) as [_ Hid].
        rewrite Hold by done. split; [fold h in Hlt; lia|]. split; [done|].
        by rewrite lookup_insert_ne.
  - intros oid' x. rewrite lookup_insert.
    destruct (decide (oid = oid')) as [<-|Hne].
    + intros [= <-]. rewrite Hr. simpl. split; [done|].
      exists nb. rewrite lookup_insert_eq. split; [done|]. apply Hmem. by left.
    + intros Hx. destruct (Hfacade _ _ Hx) as (Hid & b & Hb & Hin).
      destruct (Hfresh _ _ _ Hb Hin) as [Hlt _].
      rewrite Hold by done. split; [done|].
      destruct (decide (sym = symbol (deref h x))) as [Heq|Hne'].
      * exists nb. rewrite <-Heq, lookup_insert_eq. split; [done|].
        apply Hmem. right. fold h in Hb. rewrite <-Heq in Hb.
        by rewrite <-(Hsame _ Hb).
      * exists b. by rewrite lookup_insert_ne.
Qed.

Lemma add_order_keeps_consistent st oid sym s amt prc :
  consistent st →
  consistent (OrderManagement.add_order st oid sym s amt prc).2.
Proof.
  intros Hc. unfold OrderManagement.add_order.
  destruct (_orders st !! oid) eqn:Hnew; [done|].
  cbn [alloc]. unfold OrderManagement._get_or_create_order_book.
  cbn [_order_books heap _orders].
  destruct (_order_books st !! sym) as [bk|] eqn:Hbk; cbn [fst snd heap _orders _order_books].
  - apply (add_into_consistent st oid sym s amt prc bk Hc Hnew).
    + by apply (proj1 Hc).
    + intros b Hb. congruence.
  - rewrite insert_insert_eq.
    apply (add_into_consistent st oid sym s amt prc (OrderBook.init sym) Hc Hnew).
    + split; [apply init_book_wf|]. split.
      * intros oid' r Hr. simpl in Hr. by rewrite lookup_empty in Hr.
      * intros r Hr. by apply elem_of_nil in Hr.
    + intros b Hb. congruence.
Qed.

(** [add_order] keeps the system consistent, whether it accepts the order
    or rejects it. *)
Theorem add_order_consistent
    (st : OrderManagement) (oid : Z) (sym : string) (s : Side) (amt prc : Z) :
  consistent st →
  consistent (OrderManagement.add_order st oid sym s amt prc).2.
Proof. apply add_order_keeps_consistent. Qed.

Lemma remove_order_index h b oid :
  _order_index (OrderBook.remove_order h b oid).2 = delete oid (_order_index b).
Proof.
  unfold OrderBook.remove_order.
  destruct (_order_index b !! oid) as [r|] eqn:Hr; simpl.
  - by destruct (side (deref h r)).
  - symmetry. by apply delete_id.
Qed.

Lemma remove_order_consistent' (st : OrderManagement) (oid : Z) :
  consistent st → consistent (OrderManagement.remove_order st oid).
Proof.
  intros [Hbooks Hfacade]. unfold OrderManagement.remove_order.
  destruct (_orders st !! oid) as [r|] eqn:Hr; [|done].
  destruct (Hfacade _ _ Hr) as (Hid & b & Hb & Hin).
  rewrite Hb.
  destruct (Hbooks _ _ Hb) as (Hwf & Hindex & Hrest).
  pose proof (remove_order_wf _ _ r Hwf Hin) as (Hwf' & Hmem & _).
  rewrite Hid in Hwf', Hmem.
  pose proof (remove_order_index (heap st) b oid) as Hidx'.
  set (b' := (OrderBook.remove_order (heap st) b oid).2) in *.
  assert (∀ x, _orders st !! order_id (deref (heap st) x) = Some x →
               x ≠ r → order_id (deref (heap st) x) ≠ oid) as Hother.
  { intros x Hx Hne Heq. rewrite Heq in Hx. congruence. }
  split; cbn [heap _order_books _orders].
  - intros sym' b''. rewrite lookup_insert.
    destruct (decide (symbol (deref (heap st) r) = sym')) as [<-|Hne].
    + intros [= <-]. split; [done|]. split.
      * intros oid' x. rewrite Hidx', lookup_delete.
        destruct (decide (oid = oid')) as [|Hne]; [done|].
        intros Hx. destruct (Hindex _ _ Hx) as [Hxin Hxid].
        split; [|done]. apply Hmem. split; [done|]. intros ->. congruence.
      * intros x Hx. apply Hmem in Hx as [Hx Hxr].
        destruct (Hrest x Hx) as (Hlt & Hsym & Hfac).
        split; [done|]. split; [done|].
        rewrite lookup_delete_ne; [done|]. intros Heq. by apply (Hother x Hfac).
    + intros Hb''. destruct (Hbooks _ _ Hb'') as (Hwf2 & Hindex2 & Hrest2).
      split; [done|]. split; [done|].
      intros x Hx. destruct (Hrest2 x Hx) as (Hlt & Hsym & Hfac).
      split; [done|]. split; [done|].
      rewrite lookup_delete_ne; [done|]. intros Heq.
      rewrite <-Heq in Hfac. rewrite Hfac in Hr. injection Hr as ->. congruence.
  - intros oid' x. rewrite lookup_delete.
    destruct (decide (oid = oid')) as [|Hne]; [done|].
    intros Hx. destruct (Hfacade _ _ Hx) as (Hxid & b2 & Hb2 & Hxin).
    split; [done|].
    destruct (decide (symbol (deref (heap st) r) = symbol (deref (heap st) x)))
      as [Heq|Hne'].
    + exists b'. rewrite <-Heq, lookup_insert_eq. split; [done|].
      rewrite <-Heq, Hb in Hb2. injection Hb2 as <-.
      apply Hmem. split; [done|]. intros ->. congruence.
    + exists b2. by rewrite lookup_insert_ne.
Qed.

(** [remove_order] keeps the system consistent. *)
Theorem remove_order_consistent (st : OrderManagement) (oid : Z) :
  consistent st → consistent (OrderManagement.remove_order st oid).
Proof. apply remove_order_consistent'. Qed.

(** [calculate_price] keeps the system consistent. *)
Theorem calculate_price_consistent
    (st : OrderManagement) (sym : string) (s : Side) (a : Z) :
  consistent st → consistent (OrderManagement.calculate_price st sym s a).2.
Proof.
  intros Hc. unfold OrderManagement.calculate_price.
  pose proof (get_or_create_consistent st sym Hc) as Hc'.
  by destruct (OrderManagement._get_or_create_order_book st sym).
Qed.

Lemma two_orders_consistent : consistent two_orders.
Proof.
  unfold two_orders. do 2 apply add_order_keeps_consistent. apply init_consistent.
Defined.

Lemma add_order_consistent_witness :
  consistent (OrderManagement.add_order two_orders 9 "GOOG" SELL 5 30).2.
Proof.
  apply (add_order_consistent two_orders 9 "GOOG" SELL 5 30).
  exact two_orders_consistent.
Defined.

Lemma remove_order_consistent_witness :
  consistent (OrderManagement.remove_order two_orders 1).
Proof.
  apply (remove_order_consistent two_orders 1). exact two_orders_consistent.
Defined.

Lemma calculate_price_consistent_witness :
  consistent (OrderManagement.calculate_price two_orders "GOOG" BUY 5).2.
Proof.
  apply (calculate_price_consistent two_orders "GOOG" BUY 5).
  exact two_orders_consistent.
Defined.

(** Removing a registered order from a consistent system: the facade
    forgets the id, no book holds it any more, the object rests nowhere,
    and every other resting order and every other id stays. *)
Theorem remove_order_known (st : OrderManagement) (oid : Z) (r : nat) :
  consistent st →
  _orders st !! oid = Some r →
  let st' := OrderManagement.remove_order st oid in
  _orders st' !! oid = None
  ∧ ¬ in_some_book st' oid
  ∧ (∀ sym b', _order_books st' !! sym = Some b' → r ∉ resting b')
  ∧ (∀ oid', oid' ≠ oid → _orders st' !! oid' = _orders st !! oid')
  ∧ (∀ sym b x, _order_books st !! sym = Some b → x ∈ resting b → x ≠ r →
       ∃ b', _order_books st' !! sym = Some b' ∧ x ∈ resting b')
  ∧ heap st' = heap st.
Proof.
  intros Hc Hr st'.
  pose proof (remove_order_consistent' st oid Hc) as Hc'. fold st' in Hc'.
  pose proof (consistent_indices_agree' st' Hc') as Hagree.
  destruct Hc as [Hbooks Hfacade].
  destruct (Hfacade _ _ Hr) as (Hid & b & Hb & Hin).
  destruct (Hbooks _ _ Hb) as (Hwf & Hindex & Hrest).
  pose proof (remove_order_wf _ _ r Hwf Hin) as (_ & Hmem & _).
  rewrite Hid in Hmem.
  assert (st' = mkOM (heap st)
                  (<[symbol (deref (heap st) r) :=
                       (OrderBook.remove_order (heap st) b oid).2]>
                     (_order_books st))
                  (delete oid (_orders st))) as Hst'.
  { unfold st', OrderManagement.remove_order. by rewrite Hr, Hb. }
  assert (_orders st' !! oid = None) as Hgone
    by (rewrite Hst'; apply lookup_delete_eq).
  split; [done|]. split; [|split; [|split; [|split]]].
  - intros Hbook. apply (proj1 (Hagree oid)) in Hbook as [? ?]. congruence.
  - intros sym b' Hb' Hrin.
    destruct Hc' as [Hbooks' _].
    destruct (Hbooks' _ _ Hb') as (_ & _ & Hrest').
    destruct (Hrest' r Hrin) as (_ & _ & Hfac).
    rewrite Hst' in Hfac. cbn [heap _orders] in Hfac.
    rewrite Hid, lookup_delete_eq in Hfac. done.
  - intros oid' Hne. rewrite Hst'. cbn [_orders]. by rewrite lookup_delete_ne.
  - intros sym b2 x Hb2 Hx Hne. rewrite Hst'. cbn [_order_books].
    destruct (decide (symbol (deref (heap st) r) = sym)) as [<-|Hne'].
    + rewrite lookup_insert_eq. eexists. split; [done|].
      rewrite Hb in Hb2. injection Hb2 as <-. by apply Hmem.
    + exists b2. by rewrite lookup_insert_ne.
  - by rewrite Hst'.
Qed.

Lemma remove_order_known_witness :
  let st' := OrderManagement.remove_order two_orders 1 in
  _orders st' !! 1 = None
  ∧ ¬ in_some_book st' 1
  ∧ (∀ sym b', _order_books st' !! sym = Some b' → 0%nat ∉ resting b')
  ∧ (∀ oid', oid' ≠ 1 → _orders st' !! oid' = _orders two_orders !! oid')
  ∧ (∀ sym b x, _order_books two_orders !! sym = Some b → x ∈ resting b →
       x ≠ 0%nat → ∃ b', _order_books st' !! sym = Some b' ∧ x ∈ resting b')
  ∧ heap st' = heap two_orders.
Proof.
  apply (remove_order_known two_orders 1 0%nat).
  - exact two_orders_consistent.
  - reflexivity.
Defined.

(** ** Trades and consistency *)

Lemma walk_taken h l a :
  (walk h l a).1 = take (length (walk h l a).1) l.
Proof.
  revert a. induction l as [|r rest IH]; intros a; simpl; [done|].
  destruct (a <=? 0); [done|]. destruct (_ =? 0); simpl; [|done].
  f_equal. apply IH.
Qed.

Lemma walk_partial h l a r c :
  (walk h l a).2 = Some (r, c) →
  l !! length (walk h l a).1 = Some r
  ∧ 0 < c < amount (deref h r).
Proof.
  revert a. induction l as [|r0 rest IH]; intros a; simpl; [done|].
  destruct (Z.leb_spec a 0); [done|].
  destruct (Z.eqb_spec (amount (deref h r0) - Z.min (amount (deref h r0)) a) 0);
    simpl.
  - apply IH.
  - intros [= <- <-]. split; [done|]. lia.
Qed.

Section trade_closed.
Import TradeExecutor.

Lemma step_whole r rest s sd :
  book_wf (ex_heap s) (ex_book s) →
  OrderBook.get_orders (ex_book s) sd = r :: rest →
  amount (deref (ex_heap s) r)
  - Z.min (amount (deref (ex_heap s) r)) (ex_remaining s) = 0 →
  ex_heap (step r s) = ex_heap s
  ∧ OrderBook.get_orders (ex_book (step r s)) sd = rest
  ∧ OrderBook.get_orders (ex_book (step r s)) (other_side sd)
    = OrderBook.get_orders (ex_book s) (other_side sd)
  ∧ _order_index (ex_book (step r s))
    = delete (order_id (deref (ex_heap s) r)) (_order_index (ex_book s))
  ∧ ex_fills (step r s) = ex_fills s ++ [full_fill (ex_heap s) r]
  ∧ ex_remaining (step r s)
    = ex_remaining s - Z.min (amount (deref (ex_heap s) r)) (ex_remaining s).
Proof.
  intros Hwf Hsd Hz.
  assert (r ∈ OrderBook.get_orders (ex_book s) sd) as Hr by (rewrite Hsd; left).
  assert (r ∈ resting (ex_book s)) as Hrest by by eapply get_orders_resting.
  pose proof (wf_side _ _ _ _ Hwf Hr) as Hside.
  pose proof Hwf as (_ & _ & _ & Hidx). pose proof (Hidx r Hrest) as Hir.
  unfold step. rewrite Hz. cbn [Z.eqb ex_heap ex_book ex_fills ex_remaining].
  split; [done|]. rewrite remove_order_index.
  unfold OrderBook.remove_order. rewrite Hir, Hside.
  repeat split.
  - destruct sd; simpl in Hsd |- *; rewrite Hsd; simpl; by rewrite decide_True.
  - by destruct sd.
  - unfold full_fill. do 3 f_equal. lia.
Qed.

Lemma step_part r rest s sd :
  book_wf (ex_heap s) (ex_book s) →
  OrderBook.get_orders (ex_book s) sd = r :: rest →
  amount (deref (ex_heap s) r)
  - Z.min (amount (deref (ex_heap s) r)) (ex_remaining s) ≠ 0 →
  let c := Z.min (amount (deref (ex_heap s) r)) (ex_remaining s) in
  ex_heap (step r s)
    = set_amount (ex_heap s) r (amount (deref (ex_heap s) r) - c)
  ∧ ex_book (step r s) = ex_book s
  ∧ ex_fills (step r s)
    = ex_fills s ++ part_fill (ex_heap s) (Some (r, c))
  ∧ ex_remaining (step r s) = 0.
Proof.
  intros Hwf Hsd Hnz c.
  assert (r ∈ OrderBook.get_orders (ex_book s) sd) as Hr by (rewrite Hsd; left).
  assert (r ∈ resting (ex_book s)) as Hrest by by eapply get_orders_resting.
  pose proof Hwf as (_ & _ & _ & Hidx). pose proof (Hidx r Hrest) as Hir.
  unfold step. apply Z.eqb_neq in Hnz as Hnz'. rewrite Hnz'.
  cbn [ex_heap ex_book ex_fills ex_remaining].
  unfold OrderBook.update_order_amount. rewrite Hir. cbn [snd].
  repeat split. subst c. lia.
Qed.

(** The state the loop ends in, in closed form. *)
Lemma loop_closed orders s sd :
  book_wf (ex_heap s) (ex_book s) →
  OrderBook.get_orders (ex_book s) sd = orders →
  let w := walk (ex_heap s) orders (ex_remaining s) in
  let fin := loop orders s in
  OrderBook.get_orders (ex_book fin) sd = drop (length w.1) orders
  ∧ OrderBook.get_orders (ex_book fin) (other_side sd)
    = OrderBook.get_orders (ex_book s) (other_side sd)
  ∧ (∀ k, _order_index (ex_book fin) !! k
          = if decide (k ∈ ids_of (ex_heap s) w.1) then None
            else _order_index (ex_book s) !! k)
  ∧ ex_heap fin
    = match w.2 with
      | Some (r, c) =>
          set_amount (ex_heap s) r (amount (deref (ex_heap s) r) - c)
      | None => ex_heap s
      end
  ∧ ex_fills fin
    = ex_fills s ++ (full_fill (ex_heap s) <$> w.1) ++ part_fill (ex_heap s) w.2.
Proof.
  revert s. induction orders as [|r rest IH]; intros s Hwf Hsd.
  - simpl. rewrite Hsd, app_nil_r. repeat split; try done.
  - cbn [loop walk].
    destruct (Z.leb_spec (ex_remaining s) 0) as [Hstop|Hgo].
    { simpl. rewrite Hsd, app_nil_r. repeat split; try done. }
    assert (r ∈ resting (ex_book s)) as Hrest.
    { apply get_orders_resting with sd. rewrite Hsd. left. }
    destruct (step_wf r s Hwf Hrest) as (Hwf' & _ & _).
    destruct (Z.eqb_spec
      (amount (deref (ex_heap s) r)
       - Z.min (amount (deref (ex_heap s) r)) (ex_remaining s)) 0) as [Hz|Hnz];
      cbn [fst snd].
    + destruct (step_whole r rest s sd Hwf Hsd Hz)
        as (Hh & Hl & Ho & Hi & Hf & Hrem).
      destruct (IH (step r s) Hwf' Hl) as (Hlist & Hother & Hindex & Hheap & Hfills).
      rewrite Hh, Hrem in Hlist, Hindex, Hheap, Hfills.
      split; [exact Hlist|]. split; [by rewrite Hother|].
      split; [|split; [exact Hheap|]].
      * intros k. rewrite Hindex, Hi.
        change (ids_of (ex_heap s) (r :: ?t))
          with (order_id (deref (ex_heap s) r) :: ids_of (ex_heap s) t).
        set (T' := ids_of _ _).
        destruct (decide (k ∈ T')) as [Hin'|Hnin'];
          destruct (decide (k ∈ order_id (deref (ex_heap s) r) :: T'))
            as [Hin|Hnin]; try done.
        -- exfalso. apply Hnin. by right.
        -- apply elem_of_cons in Hin as [->|Hin]; [|done].
           apply lookup_delete_eq.
        -- apply lookup_delete_ne. intros <-. apply Hnin. left.
      * rewrite Hfills, Hf, fmap_cons, <-!app_assoc. done.
    + destruct (step_part r rest s sd Hwf Hsd Hnz) as (Hh & Hb & Hf & Hrem).
      rewrite loop_done by lia. rewrite Hh, Hb, Hf, Hsd. simpl.
      repeat split; try done.
Qed.

End trade_closed.

Lemma resting_sides b s x :
  x ∈ resting b
  ↔ x ∈ OrderBook.get_orders b s ∨ x ∈ OrderBook.get_orders b (other_side s).
Proof. unfold resting. rewrite elem_of_app. destruct s; simpl; tauto. Qed.

Lemma track_whole h h' T (orders : gmap Z nat) :
  NoDup (ids_of h T) →
  (∀ r, r ∈ T → orders !! order_id (deref h r) = Some r
                ∧ amount (deref h' r) = amount (deref h r)) →
  ∀ k, foldl (OrderManagement.track_fill h') orders (full_fill h <$> T) !! k
       = if decide (k ∈ ids_of h T) then None else orders !! k.
Proof.
  revert orders. induction T as [|r T IH]; intros orders Hnd Hall k.
  - simpl. destruct (decide (k ∈ ids_of h [])) as [Hin|]; [|done].
    by apply elem_of_nil in Hin.
  - change (ids_of h (r :: T)) with (order_id (deref h r) :: ids_of h T) in *.
    apply NoDup_cons in Hnd as [Hr Hnd].
    destruct (Hall r) as [Hreg Hamt]; [left|].
    rewrite fmap_cons. cbn [foldl].
    assert (OrderManagement.track_fill h' orders (full_fill h r)
            = delete (order_id (deref h r)) orders) as ->.
    { unfold OrderManagement.track_fill, full_fill. simpl.
      rewrite Hreg, Hamt, Z.sub_diag. done. }
    rewrite IH; [|done|].
    + destruct (decide (k ∈ ids_of h T)) as [Hin'|Hnin'];
        destruct (decide (k ∈ order_id (deref h r) :: ids_of h T))
          as [Hin|Hnin]; try done.
      * exfalso. apply Hnin. by right.
      * apply elem_of_cons in Hin as [->|Hin]; [|done]. apply lookup_delete_eq.
      * apply lookup_delete_ne. intros <-. apply Hnin. left.
    + intros r' Hr'. destruct (Hall r') as [Hreg' Hamt']; [by right|].
      split; [|done]. rewrite lookup_delete_ne; [done|].
      intros Heq. apply Hr. rewrite Heq. unfold ids_of.
      by apply (list_elem_of_fmap_2 (order_id ∘ deref h)).
Qed.

Section trade_consistent.
Import TradeExecutor.

(** What a trade on a consistent state leaves, when no partial fill
    leaves exactly what it took. *)
Lemma trade_consistent uuid now st sym bk s a :
  consistent st →
  _order_books st !! sym = Some bk →
  let '(t, h', b') := execute uuid now (heap st) bk s a in
  ¬ half_fill st t →
  consistent
    (OrderManagement._update_local_order_tracking
       (mkOM h' (<[sym := b']> (_order_books st)) (_orders st)) t).
Proof.
  intros [Hbooks Hfacade] Hbk.
  destruct (Hbooks _ _ Hbk) as (Hwf & Hindex & Hrest).
  unfold execute. set (h := heap st) in *.
  set (l := OrderBook.get_orders bk s).
  set (s0 := mkExec h bk [] a 0 0).
  pose proof (loop_closed l s0 s Hwf eq_refl)
    as (Hlist & Hother & Hidx' & Hheap & Hfills).
  pose proof (loop_wf l s0 Hwf (get_orders_NoDup h bk s Hwf)
                (λ x, get_orders_resting bk s x)) as Hwf'.
  pose proof (loop_same_but_amounts l s0) as [Hlen Hfields].
  cbn [ex_heap ex_book ex_remaining ex_fills s0] in Hlist, Hother, Hidx', Hheap,
    Hfills, Hwf', Hlen, Hfields.
  set (w := walk h l a) in *. set (fin := loop l s0) in *. clearbody fin.
  simpl in Hfills.
  intros Hnohalf.
  unfold OrderManagement._update_local_order_tracking.
  cbn [heap _order_books _orders order_fills].
  set (T := w.1) in *. set (h' := ex_heap fin) in *. set (b' := ex_book fin) in *.
  (* the orders taken whole *)
  assert (l = T ++ drop (length T) l) as Hsplit.
  { rewrite <-(take_drop (length T) l) at 1. f_equal. symmetry. apply walk_taken. }
  pose proof (get_orders_NoDup h bk s Hwf) as Hndl. fold l in Hndl.
  rewrite Hsplit in Hndl. apply NoDup_app in Hndl as (HndT & Hdisj & _).
  assert (∀ x, x ∈ T → x ∈ l) as HTl.
  { intros x Hx. rewrite Hsplit, elem_of_app. by left. }
  assert (∀ x, x ∈ T → x ∈ resting bk) as HTrest.
  { intros x Hx. apply get_orders_resting with s. by apply HTl. }
  assert (∀ x y, x ∈ resting bk → y ∈ resting bk →
                 order_id (deref h x) = order_id (deref h y) → x = y) as Hinj
    by (intros x y; apply (wf_same_id h bk); done).
  assert (NoDup (ids_of h T)) as Hndids.
  { unfold ids_of. apply NoDup_fmap_2_strong; [|done].
    intros x y Hx Hy. simpl. apply Hinj; auto. }
  assert (∀ x, x ∈ resting bk → order_id (deref h x) ∈ ids_of h T → x ∈ T) as HinT.
  { intros x Hx Hid. unfold ids_of in Hid.
    apply list_elem_of_fmap in Hid as (y & Heq & Hy). simpl in Heq.
    by rewrite (Hinj x y Hx (HTrest y Hy) Heq). }
  (* the order taken in part *)
  assert (∀ r c, w.2 = Some (r, c) →
            r ∈ resting bk ∧ (r ∉ T) ∧ 0 < c < amount (deref h r)) as Hpart.
  { intros r c Hp. destruct (walk_partial h l a r c Hp) as [Hl Hc].
    fold w in Hl. fold T in Hl.
    assert (r ∈ drop (length T) l) as Hdrop.
    { apply (list_elem_of_lookup_2 _ 0). rewrite lookup_drop. by rewrite Nat.add_0_r. }
    split; [|split; [|done]].
    - apply get_orders_resting with s. fold l. rewrite Hsplit, elem_of_app. by right.
    - intros HT. by apply (Hdisj r). }
  assert (∀ x, x ∈ T → amount (deref h' x) = amount (deref h x)) as Hamt.
  { intros x Hx. rewrite Hheap. destruct w.2 as [[r c]|] eqn:Hp; [|done].
    rewrite deref_set_amount_eq, decide_False; [done|].
    intros [-> _]. by destruct (Hpart r c eq_refl) as (_ & ? & _). }
  (* the facade's index after the tracking loop *)
  assert (∀ k, foldl (OrderManagement.track_fill h') (_orders st) (ex_fills fin) !! k
               = if decide (k ∈ ids_of h T) then None else _orders st !! k)
    as Htrack.
  { intros k. rewrite Hfills, foldl_app.
    assert (∀ k, foldl (OrderManagement.track_fill h') (_orders st)
                   (full_fill h <$> T) !! k
                 = if decide (k ∈ ids_of h T) then None else _orders st !! k)
      as Hwhole.
    { apply track_whole; [done|]. intros r Hr. split; [|by apply Hamt].
      by apply Hrest, HTrest. }
    destruct w.2 as [[r c]|] eqn:Hp; simpl; [|apply Hwhole].
    destruct (Hpart r c eq_refl) as (Hrin & HrT & Hc).
    destruct (Hrest r Hrin) as (Hlt & _ & Hreg).
    unfold OrderManagement.track_fill at 1. simpl.
    rewrite Hwhole. rewrite decide_False by (intros Hid; by apply HrT, HinT).
    rewrite Hreg.
    assert (amount (deref h' r) = amount (deref h r) - c) as ->.
    { rewrite Hheap, deref_set_amount_eq, decide_True by done. done. }
    destruct (Z.eqb_spec (amount (deref h r) - c - c) 0) as [Hhalf|_];
      [|apply Hwhole].
    exfalso. apply Hnohalf. exists (mkOrderFill (order_id (deref h r)) c
                                     (price (deref h r))), r.
    simpl. change (heap st) with h. repeat split; [|done|lia|lia].
    rewrite Hfills, elem_of_app. right. simpl. left. }
  (* what rests in the traded book *)
  assert (∀ x, x ∈ resting b' ↔ x ∈ resting bk ∧ x ∉ T) as Hmem.
  { intros x. rewrite (resting_sides b' s), (resting_sides bk s).
    rewrite Hlist, Hother. fold l.
    rewrite Hsplit at 2. rewrite elem_of_app. split.
    - intros [Hx|Hx].
      + split; [auto|]. intros HT. by apply (Hdisj x).
      + split; [auto|]. intros HT.
        by apply (wf_sides_disjoint h bk s x Hwf (HTl x HT)).
    - intros [[[HT|Hx]|Hx] HnT]; auto. done. }
  split; cbn [heap _order_books _orders].
  - intros sym' b''. rewrite lookup_insert.
    destruct (decide (sym = sym')) as [<-|Hne].
    + intros [= <-]. split; [exact Hwf'|]. split.
      * intros oid x. rewrite Hidx'.
        destruct (decide (oid ∈ ids_of h T)) as [|Hnin]; [done|].
        intros Hx. destruct (Hindex _ _ Hx) as [Hxin Hxid].
        split; [|by rewrite (proj1 (Hfields x))].
        apply Hmem. split; [done|]. intros HT. apply Hnin. rewrite <-Hxid.
        unfold ids_of. by apply (list_elem_of_fmap_2 (order_id ∘ deref h)).
      * intros x Hx. apply Hmem in Hx as [Hx HnT].
        destruct (Hrest x Hx) as (Hlt & Hsym & Hreg).
        destruct (Hfields x) as (Hid & Hsy & _).
        rewrite Hid, Hsy. split; [lia|]. split; [done|].
        rewrite Htrack, decide_False; [done|]. intros Hin. by apply HnT, HinT.
    + intros Hb''. destruct (Hbooks _ _ Hb'') as (Hwf2 & Hindex2 & Hrest2).
      split; [|split].
      * eapply book_wf_same_fields; [|exact Hwf2].
        intros x _. destruct (Hfields x) as (? & _ & ? & _). done.
      * intros oid x Hx. destruct (Hindex2 _ _ Hx) as [Hxin Hxid].
        split; [done|]. by rewrite (proj1 (Hfields x)).
      * intros x Hx. destruct (Hrest2 x Hx) as (Hlt & Hsym & Hreg).
        destruct (Hfields x) as (Hid & Hsy & _).
        rewrite Hid, Hsy. split; [lia|]. split; [done|].
        rewrite Htrack, decide_False; [done|]. intros Hin.
        unfold ids_of in Hin. apply list_elem_of_fmap in Hin as (y & Heq & Hy).
        simpl in Heq. destruct (Hrest y (HTrest y Hy)) as (_ & Hsymy & Hregy).
        rewrite <-Heq, Hreg in Hregy. injection Hregy as ->. congruence.
  - intros oid x. rewrite Htrack.
    destruct (decide (oid ∈ ids_of h T)) as [|Hnin]; [done|].
    intros Hx. destruct (Hfacade _ _ Hx) as (Hxid & b2 & Hb2 & Hxin).
    destruct (Hfields x) as (Hid & Hsy & _). rewrite Hid, Hsy.
    split; [done|].
    destruct (decide (sym = symbol (deref h x))) as [Heq|Hne'].
    + exists b'. rewrite <-Heq, lookup_insert_eq. split; [done|].
      rewrite <-Heq, Hbk in Hb2. injection Hb2 as <-.
      apply Hmem. split; [done|]. intros HT. apply Hnin. rewrite <-Hxid.
      unfold ids_of. by apply (list_elem_of_fmap_2 (order_id ∘ deref h)).
    + exists b2. by rewrite lookup_insert_ne.
Qed.

End trade_consistent.

Lemma half_fill_same st st1 t :
  heap st1 = heap st → _orders st1 = _orders st →
  half_fill st1 t ↔ half_fill st t.
Proof. intros Hh Ho. unfold half_fill. by rewrite Hh, Ho. Qed.

Lemma place_trade_unfold uuid now st sym s a :
  let bk := (OrderManagement._get_or_create_order_book st sym).1 in
  let st1 := (OrderManagement._get_or_create_order_book st sym).2 in
  OrderManagement.place_trade uuid now st sym s a
  = ((TradeExecutor.execute uuid now (heap st) bk s a).1.1,
     OrderManagement._update_local_order_tracking
       (mkOM (TradeExecutor.execute uuid now (heap st) bk s a).1.2
          (<[sym := (TradeExecutor.execute uuid now (heap st) bk s a).2]>
             (_order_books st1))
          (_orders st))
       (TradeExecutor.execute uuid now (heap st) bk s a).1.1).
Proof.
  unfold OrderManagement.place_trade.
  pose proof (get_or_create_heap st sym) as [Hh Ho].
  destruct (OrderManagement._get_or_create_order_book st sym) as [bk st1].
  cbn [fst snd] in *. rewrite Hh, Ho.
  by destruct (TradeExecutor.execute uuid now (heap st) bk s a) as [[t h'] b'].
Qed.

Lemma place_trade_keeps_consistent uuid now st sym s a :
  consistent st →
  ¬ half_fill st (OrderManagement.place_trade uuid now st sym s a).1 →
  consistent (OrderManagement.place_trade uuid now st sym s a).2.
Proof.
  intros Hc. rewrite place_trade_unfold. cbn [fst snd].
  pose proof (get_or_create_consistent st sym Hc) as Hc1.
  pose proof (get_or_create_lookup st sym) as Hbk.
  pose proof (get_or_create_heap st sym) as [Hh Ho].
  destruct (OrderManagement._get_or_create_order_book st sym) as [bk st1].
  cbn [fst snd] in *.
  pose proof (trade_consistent uuid now st1 sym bk s a Hc1 Hbk) as Htrade.
  rewrite Hh, Ho in Htrade.
  destruct (TradeExecutor.execute uuid now (heap st) bk s a) as [[t h'] b'].
  cbn [fst snd]. intros Hno. apply Htrade.
  intros Hhalf. apply Hno. by apply (half_fill_same st st1).
Qed.

(** [place_trade] keeps the system consistent whenever the trade has no
    half fill. *)
Theorem place_trade_consistent
    (uuid : string) (now : Z) (st : OrderManagement)
    (sym : string) (s : Side) (a : Z) :
  consistent st →
  ¬ half_fill st (OrderManagement.place_trade uuid now st sym s a).1 →
  consistent (OrderManagement.place_trade uuid now st sym s a).2.
Proof. apply place_trade_keeps_consistent. Qed.

Lemma place_trade_consistent_witness :
  consistent (OrderManagement.place_trade "t" 0 two_orders "JPM" BUY 22).2.
Proof.
  apply (place_trade_consistent "t" 0 two_orders "JPM" BUY 22).
  - exact two_orders_consistent.
  - intros (f & r & Hf & Hr & Hpos & Hhalf).
    vm_compute in Hf.
    apply elem_of_cons in Hf as [->|Hf];
      [vm_compute in Hr; injection Hr as <-; vm_compute in Hhalf; discriminate|].
    apply elem_of_cons in Hf as [->|Hf];
      [vm_compute in Hr; injection Hr as <-; vm_compute in Hhalf; discriminate|].
    by apply elem_of_nil in Hf.
Defined.

Section trade_half_fill.
Import TradeExecutor.

(** The outcome of the loop on a consistent state, told through the
    walk: the fills, the facade's index after the fills of the orders
    taken whole, the book's index, and what is known of the order taken
    in part. *)
Lemma trade_walk_facts st sym bk s a :
  consistent st →
  _order_books st !! sym = Some bk →
  let h := heap st in
  let w := walk h (OrderBook.get_orders bk s) a in
  let fin := loop (OrderBook.get_orders bk s) (mkExec h bk [] a 0 0) in
  ex_fills fin = (full_fill h <$> w.1) ++ part_fill h w.2
  ∧ (∀ k, foldl (OrderManagement.track_fill (ex_heap fin)) (_orders st)
            (full_fill h <$> w.1) !! k
          = if decide (k ∈ ids_of h w.1) then None else _orders st !! k)
  ∧ (∀ k, _order_index (ex_book fin) !! k
          = if decide (k ∈ ids_of h w.1) then None else _order_index bk !! k)
  ∧ (∀ x, x ∈ w.1 → _orders st !! order_id (deref h x) = Some x)
  ∧ (∀ r c, w.2 = Some (r, c) →
       (order_id (deref h r) ∉ ids_of h w.1)
       ∧ 0 < c < amount (deref h r)
       ∧ amount (deref (ex_heap fin) r) = amount (deref h r) - c
       ∧ _orders st !! order_id (deref h r) = Some r
       ∧ _order_index bk !! order_id (deref h r) = Some r).
Proof.
  intros [Hbooks Hfacade] Hbk h w fin.
  destruct (Hbooks _ _ Hbk) as (Hwf & Hindex & Hrest). fold h in Hwf, Hindex, Hrest.
  set (l := OrderBook.get_orders bk s) in *.
  pose proof (loop_closed l (mkExec h bk [] a 0 0) s Hwf eq_refl)
    as (_ & _ & Hidx' & Hheap & Hfills).
  cbn [ex_heap ex_book ex_remaining ex_fills] in Hidx', Hheap, Hfills.
  fold w fin in Hidx', Hheap, Hfills. simpl in Hfills. clearbody fin.
  set (T := w.1) in *.
  assert (l = T ++ drop (length T) l) as Hsplit.
  { rewrite <-(take_drop (length T) l) at 1. f_equal. symmetry. apply walk_taken. }
  pose proof (get_orders_NoDup h bk s Hwf) as Hndl. fold l in Hndl.
  rewrite Hsplit in Hndl. apply NoDup_app in Hndl as (HndT & Hdisj & _).
  assert (∀ x, x ∈ T → x ∈ resting bk) as HTrest.
  { intros x Hx. apply get_orders_resting with s. fold l.
    rewrite Hsplit, elem_of_app. by left. }
  assert (∀ x y, x ∈ resting bk → y ∈ resting bk →
                 order_id (deref h x) = order_id (deref h y) → x = y) as Hinj
    by (intros x y; apply (wf_same_id h bk); done).
  assert (NoDup (ids_of h T)) as Hndids.
  { unfold ids_of. apply NoDup_fmap_2_strong; [|done].
    intros x y Hx Hy. simpl. apply Hinj; auto. }
  assert (∀ r c, w.2 = Some (r, c) →
            r ∈ resting bk ∧ (r ∉ T) ∧ 0 < c < amount (deref h r)) as Hpart.
  { intros r c Hp. destruct (walk_partial h l a r c Hp) as [Hl Hc].
    fold w in Hl. fold T in Hl.
    assert (r ∈ drop (length T) l) as Hdrop.
    { apply (list_elem_of_lookup_2 _ 0). rewrite lookup_drop. by rewrite Nat.add_0_r. }
    split; [|split; [|done]].
    - apply get_orders_resting with s. fold l. rewrite Hsplit, elem_of_app. by right.
    - intros HT. by apply (Hdisj r). }
  split; [done|]. split; [|split; [done|split]].
  - apply track_whole; [done|]. intros x Hx. split; [by apply Hrest, HTrest|].
    rewrite Hheap. destruct w.2 as [[r c]|] eqn:Hp; [|done].
    rewrite deref_set_amount_eq, decide_False; [done|].
    intros [-> _]. by destruct (Hpart r c eq_refl) as (_ & ? & _).
  - intros x Hx. by apply Hrest, HTrest.
  - intros r c Hp. destruct (Hpart r c Hp) as (Hrin & HrT & Hc).
    destruct (Hrest r Hrin) as (Hlt & _ & Hreg).
    split; [|split; [done|split; [|split; [done|]]]].
    + intros Hid. unfold ids_of in Hid.
      apply list_elem_of_fmap in Hid as (y & Heq & Hy). simpl in Heq.
      by rewrite (Hinj r y Hrin (HTrest y Hy) Heq) in HrT.
    + rewrite Hheap, Hp, deref_set_amount_eq, decide_True by done. done.
    + destruct Hwf as (_ & _ & _ & Hi). by apply Hi.
Qed.

(** A half fill on a consistent state breaks the agreement of the
    indices: the facade forgets the order taken in part, the book keeps
    it. *)
Theorem place_trade_half_fill_breaks
    (uuid : string) (now : Z) (st : OrderManagement)
    (sym : string) (s : Side) (a : Z) :
  consistent st →
  half_fill st (OrderManagement.place_trade uuid now st sym s a).1 →
  let st' := (OrderManagement.place_trade uuid now st sym s a).2 in
  (∃ oid, in_some_book st' oid ∧ _orders st' !! oid = None)
  ∧ ¬ indices_agree st'.
Proof.
  intros Hc Hhf st'.
  assert (∃ oid, in_some_book st' oid ∧ _orders st' !! oid = None) as Hex.
  2:{ split; [done|]. destruct Hex as (oid & Hbook & Hnone). intros Hagree.
      apply (Hagree oid) in Hbook as [? ?]. congruence. }
  revert Hhf. subst st'. rewrite place_trade_unfold. cbn [fst snd].
  pose proof (get_or_create_consistent st sym Hc) as Hc1.
  pose proof (get_or_create_lookup st sym) as Hbk.
  pose proof (get_or_create_heap st sym) as [Hh Ho].
  destruct (OrderManagement._get_or_create_order_book st sym) as [bk st1].
  cbn [fst snd] in *.
  pose proof (trade_walk_facts st1 sym bk s a Hc1 Hbk)
    as (Hfills & Hwhole & Hidx & HT & Hpart).
  rewrite Hh in Hfills, Hwhole, Hidx, HT, Hpart.
  rewrite Ho in Hwhole, HT, Hpart.
  unfold execute. cbn [fst snd order_fills].
  set (fin := loop (OrderBook.get_orders bk s) (mkExec (heap st) bk [] a 0 0)) in *.
  clearbody fin.
  set (w := walk (heap st) (OrderBook.get_orders bk s) a) in *.
  intros (f & r & Hf & Hr & Hpos & Hhalf).
  cbn [order_fills] in Hf. rewrite Hfills, elem_of_app in Hf.
  destruct Hf as [Hf|Hf].
  - apply list_elem_of_fmap in Hf as (x & -> & Hx).
    unfold full_fill in Hr, Hpos, Hhalf. simpl in Hr, Hpos, Hhalf.
    rewrite (HT x Hx) in Hr. injection Hr as <-. lia.
  - destruct w.2 as [[rp c]|] eqn:Hp; simpl in Hf; [|by apply elem_of_nil in Hf].
    apply list_elem_of_singleton in Hf as ->. simpl in Hr, Hpos, Hhalf.
    destruct (Hpart rp c eq_refl) as (Hnin & Hc' & Hamt & Hreg & Hbook).
    rewrite Hreg in Hr. injection Hr as <-.
    set (oid := order_id (deref (heap st) rp)) in *.
    exists oid. unfold OrderManagement._update_local_order_tracking.
    cbn [_orders _order_books heap order_fills]. split.
    + exists sym, (ex_book fin). cbn [_order_books].
      rewrite lookup_insert_eq. split; [done|].
      rewrite Hidx, decide_False by done. by exists rp.
    + rewrite Hfills, foldl_app. simpl.
      unfold OrderManagement.track_fill at 1. simpl. fold oid.
      rewrite Hwhole, decide_False, Hreg, Hamt by done.
      replace (amount (deref (heap st) rp) - c - c) with 0 by lia.
      simpl. apply lookup_delete_eq.
Qed.

Lemma place_trade_half_fill_breaks_witness :
  let st' :=
    (OrderManagement.place_trade "t" 0
       (OrderManagement.add_order OrderManagement.init 1 "JPM" BUY 10 20).2
       "JPM" BUY 5).2 in
  (∃ oid, in_some_book st' oid ∧ _orders st' !! oid = None)
  ∧ ¬ indices_agree st'.
Proof.
  apply (place_trade_half_fill_breaks "t" 0
           (OrderManagement.add_order OrderManagement.init 1 "JPM" BUY 10 20).2
           "JPM" BUY 5).
  - apply add_order_keeps_consistent, init_consistent.
  - exists (mkOrderFill 1 5 20), 0%nat.
    split; [vm_compute; left|]. split; [reflexivity|].
    split; [simpl; lia|reflexivity].
Defined.

End trade_half_fill.

(** ** The HTTP handlers *)

(** A side text other than ["BUY"] and ["SELL"]: GET /price and
    POST /trades answer with their own [HTTPException] 400, while
    POST /orders lets the [ValueError] of [Side(...)] pass; none of the
    three touches the state. *)
Theorem routes_bad_side
    (isoformat : Z → string) (uuid : string) (now : Z) (st : OrderManagement)
    (text sym : string) (a : Z)
    (order_request : OrderRequest) (trade_request : TradeRequest) :
  text ≠ "BUY" → text ≠ "SELL" →
  req_side order_request = text →
  treq_side trade_request = text →
  Routes.calculate_price st sym text a = (Fails Routes.invalid_side, st)
  ∧ Routes.place_trade isoformat uuid now st trade_request
    = (Fails Routes.invalid_side, st)
  ∧ Routes.add_order st order_request
    = (Fails (Passed (ValueError (PyStr text))), st).
Proof.
  intros Hb Hs Hreq Htreq.
  assert (Routes.parse_side text = Raise (ValueError (PyStr text))) as Hparse.
  { unfold Routes.parse_side, Side_of_value. by rewrite !decide_False. }
  unfold Routes.calculate_price, Routes.place_trade, Routes.add_order.
  by rewrite Hreq, Htreq, Hparse.
Qed.

Lemma routes_bad_side_witness :
  Routes.calculate_price two_orders "JPM" "HOLD" 5
  = (Fails Routes.invalid_side, two_orders)
  ∧ Routes.place_trade (λ _, ""%string) "t" 0 two_orders
      (mkTradeRequest "JPM" "HOLD" 5)
    = (Fails Routes.invalid_side, two_orders)
  ∧ Routes.add_order two_orders (mkOrderRequest 9 "JPM" "HOLD" 5 20)
    = (Fails (Passed (ValueError (PyStr "HOLD"))), two_orders).
Proof.
  apply (routes_bad_side (λ _, ""%string) "t" 0 two_orders "HOLD" "JPM" 5
           (mkOrderRequest 9 "JPM" "HOLD" 5 20) (mkTradeRequest "JPM" "HOLD" 5));
    done.
Defined.

(** POST /orders with an id the facade knows: the handler lets the
    duplicate-id [ValueError] of the facade pass and the state is as
    before; the handler does not turn it into an [HTTPException]. *)
Theorem route_add_order_duplicate
    (st : OrderManagement) (order_request : OrderRequest) (sd : Side) :
  req_side order_request = Side_value sd →
  is_Some (_orders st !! req_order_id order_request) →
  Routes.add_order st order_request
  = (Fails (Passed (ValueError (PyInt (req_order_id order_request)))), st).
Proof.
  intros Hside Hknown. unfold Routes.add_order, Routes.parse_side.
  rewrite Hside, (proj2 (Side_of_value_Some _ sd)) by done.
  by rewrite add_order_known_id.
Qed.

Lemma route_add_order_duplicate_witness :
  Routes.add_order two_orders (mkOrderRequest 1 "GOOG" "SELL" 5 20)
  = (Fails (Passed (ValueError (PyInt 1))), two_orders).
Proof.
  apply (route_add_order_duplicate two_orders
           (mkOrderRequest 1 "GOOG" "SELL" 5 20) SELL).
  - reflexivity.
  - vm_compute. eauto.
Defined.


(** GET /orderbook/{symbol} in any reachable state lists the buy orders
    with non-decreasing and the sell orders with non-increasing prices;
    for a symbol without a book both lists are empty. *)
Theorem route_get_order_book_sorted (st : OrderManagement) (sym : string) :
  reachable st →
  let resp := Routes.get_order_book st sym in
  (∀ i j x y, (i < j)%nat →
     obr_buy_orders resp !! i = Some x → obr_buy_orders resp !! j = Some y →
     obo_price x ≤ obo_price y)
  ∧ (∀ i j x y, (i < j)%nat →
     obr_sell_orders resp !! i = Some x → obr_sell_orders resp !! j = Some y →
     obo_price y ≤ obo_price x)
  ∧ (_order_books st !! sym = None →
     obr_buy_orders resp = [] ∧ obr_sell_orders resp = []).
Proof.
  intros Hreach resp. subst resp. unfold Routes.get_order_book.
  pose proof (all_ordered_reachable st Hreach sym) as Hord.
  destruct (_order_books st !! sym) as [b|]; simpl.
  - destruct (Hord b eq_refl) as (Hbuy & Hsell & _).
    split; [|split; [|done]]; intros i j x y Hij Hi Hj;
      apply list_lookup_fmap_Some_1 in Hi as (oi & -> & Hi);
      apply list_lookup_fmap_Some_1 in Hj as (oj & -> & Hj);
      apply list_lookup_fmap_Some_1 in Hi as (ri & -> & Hi);
      apply list_lookup_fmap_Some_1 in Hj as (rj & -> & Hj); simpl.
    + pose proof (sorted_lookup _ _ _ _ _ _ Hbuy Hij Hi Hj) as He.
      unfold earlier, buy_key in He. lia.
    + pose proof (sorted_lookup _ _ _ _ _ _ Hsell Hij Hi Hj) as He.
      unfold earlier, sell_key in He. lia.
  - repeat split; try done; intros i j x y _ Hi; done.
Qed.

Lemma route_get_order_book_sorted_witness :
  let resp := Routes.get_order_book (half_filled "t" 0) "JPM" in
  (∀ i j x y, (i < j)%nat →
     obr_buy_orders resp !! i = Some x → obr_buy_orders resp !! j = Some y →
     obo_price x ≤ obo_price y)
  ∧ (∀ i j x y, (i < j)%nat →
     obr_sell_orders resp !! i = Some x → obr_sell_orders resp !! j = Some y →
     obo_price y ≤ obo_price x)
  ∧ (_order_books (half_filled "t" 0) !! "JPM" = None →
     obr_buy_orders resp = [] ∧ obr_sell_orders resp = []).
Proof.
  apply (route_get_order_book_sorted (half_filled "t" 0) "JPM").
  apply half_filled_reachable.
Defined.

(** ** Runs without half fills *)

Lemma exec_consistent st c :
  consistent st →
  match c with
  | PlaceTrade uuid now sym s a =>
      ¬ half_fill st (OrderManagement.place_trade uuid now st sym s a).1
  | _ => True
  end →
  consistent (exec st c).
Proof.
  intros Hc Hclean.
  destruct c as [oid sym s amt prc|oid|sym s amt|uuid now sym s amt]; simpl.
  - by apply add_order_keeps_consistent.
  - by apply remove_order_consistent'.
  - unfold OrderManagement.calculate_price.
    pose proof (get_or_create_consistent st sym Hc) as Hc'.
    by destruct (OrderManagement._get_or_create_order_book st sym).
  - by apply place_trade_keeps_consistent.
Qed.

(** From the empty system, any run of the four public operations whose
    trades have no half fill ends in a consistent state, in which the
    facade's index and the books' indices agree. *)
Theorem clean_run_agrees (cs : list command) :
  no_half_fills OrderManagement.init cs →
  let st := foldl exec OrderManagement.init cs in
  consistent st ∧ indices_agree st.
Proof.
  intros Hclean st.
  assert (consistent st) as Hc; [|split; [done|by apply consistent_indices_agree']].
  subst st. revert Hclean. generalize init_consistent.
  generalize OrderManagement.init as st0.
  induction cs as [|c cs IH]; intros st0 Hc0 Hclean; [done|].
  destruct Hclean as [Hc Hrest]. cbn [foldl].
  apply IH; [|done]. by apply exec_consistent.
Qed.

Lemma clean_run_agrees_witness :
  let st :=
    foldl exec OrderManagement.init
      [AddOrder 1 "JPM" BUY 20 20; AddOrder 4 "JPM" BUY 10 21;
       PlaceTrade "t" 0 "JPM" BUY 22] in
  consistent st ∧ indices_agree st.
Proof.
  apply (clean_run_agrees
           [AddOrder 1 "JPM" BUY 20 20; AddOrder 4 "JPM" BUY 10 21;
            PlaceTrade "t" 0 "JPM" BUY 22]).
  simpl. repeat split.
  intros (f & r & Hf & Hr & Hpos & Hhalf).
  vm_compute in Hf.
  apply elem_of_cons in Hf as [->|Hf];
    [vm_compute in Hr; injection Hr as <-; vm_compute in Hhalf; discriminate|].
  apply elem_of_cons in Hf as [->|Hf];
    [vm_compute in Hr; injection Hr as <-; vm_compute in Hhalf; discriminate|].
  by apply elem_of_nil in Hf.
Defined.
